(** * GoogleReCaptchaProvider: readiness coordination

    A shallow embedding of [src/google-recaptcha-provider.tsx]: the
    provider's effect, its three resolvers, the global onload callback and
    [executeRecaptcha], run as an event-driven state machine over the refs
    of one mounted provider, the global scope and the document. *)

From Stdlib Require Import ZArith DecimalString DecimalZ.
From stdpp Require Import base option list strings gmap.

(** ** JavaScript values and plain objects *)

Module Js.

(** The values that occur in [scriptProps] and [container.parameters]:
    strings, booleans, numbers, functions (identified by a closure
    identity) and [undefined]. A number [VNum n] stands for the integer [n]
    as a JavaScript Number, which it is exactly when [n] is a safe integer
    (at most 2^53 - 1 in absolute value); negative zero and the numbers that
    are no integers have no [VNum]. *)
Inductive Val :=
| VUndefined
| VBool (b : bool)
| VNum (n : Z)
| VStr (s : string)
| VFun (identity : nat).

(** A plain object: its own enumerable properties in insertion order
    (the property names of the props are no array indices, which would come
    first). *)
Definition Obj := list (string * Val).

Fixpoint get (o : Obj) (k : string) : option Val :=
  match o with
  | [] => None
  | (k', v) :: o' => if String.eqb k' k then Some v else get o' k
  end.

(** [o[k] = v]: an existing property keeps its position, a new one is
    added last. *)
Fixpoint set (o : Obj) (k : string) (v : Val) : Obj :=
  match o with
  | [] => [(k, v)]
  | (k', v') :: o' =>
      if String.eqb k' k then (k', v) :: o' else (k', v') :: set o' k v
  end.

(** [{...a, ...b}]: the properties of [b] are assigned over those of [a]
    from left to right. *)
Definition spread (a b : Obj) : Obj :=
  fold_left (fun acc kv => set acc (fst kv) (snd kv)) b a.

(** ToBoolean on a string: only the empty string is falsy. *)
Definition truthy_string (s : string) : bool :=
  match s with
  | EmptyString => false
  | String _ _ => true
  end.

(** [o?.k || d] for a property whose declared type is [string]. *)
Definition string_or (o : option Obj) (k : string) (d : string) : string :=
  match o with
  | None => d
  | Some o =>
      match get o k with
      | Some (VStr s) => if truthy_string s then s else d
      | _ => d
      end
  end.

(** *** JSON.stringify *)

Definition dquote : string := String (Ascii.ascii_of_nat 34) EmptyString.
Definition backslash : string := String (Ascii.ascii_of_nat 92) EmptyString.

Definition hex_digit (n : nat) : string :=
  match n with
  | 0 => "0" | 1 => "1" | 2 => "2" | 3 => "3" | 4 => "4" | 5 => "5"
  | 6 => "6" | 7 => "7" | 8 => "8" | 9 => "9" | 10 => "a" | 11 => "b"
  | 12 => "c" | 13 => "d" | 14 => "e" | _ => "f"
  end.

(** QuoteJSONString on one code unit. *)
Definition escape_char (c : Ascii.ascii) : string :=
  let n := Ascii.nat_of_ascii c in
  if Nat.eqb n 34 then backslash +:+ dquote
  else if Nat.eqb n 92 then backslash +:+ backslash
  else if Nat.eqb n 8 then backslash +:+ "b"
  else if Nat.eqb n 9 then backslash +:+ "t"
  else if Nat.eqb n 10 then backslash +:+ "n"
  else if Nat.eqb n 12 then backslash +:+ "f"
  else if Nat.eqb n 13 then backslash +:+ "r"
  else if Nat.ltb n 32 then
    backslash +:+ "u00" +:+ hex_digit (n / 16) +:+ hex_digit (n mod 16)
  else String c EmptyString.

Fixpoint escape (s : string) : string :=
  match s with
  | EmptyString => EmptyString
  | String c s' => escape_char c +:+ escape s'
  end.

Definition quote (s : string) : string := dquote +:+ escape s +:+ dquote.

(** SerializeJSONProperty on a value: [undefined] and functions have no
    serialization. A number is printed in decimal digits, which is what
    Number::toString gives for the safe integers (it turns to exponent form
    from 10^21 on). *)
Definition stringify_val (v : Val) : option string :=
  match v with
  | VUndefined => None
  | VFun _ => None
  | VBool true => Some "true"
  | VBool false => Some "false"
  | VNum n => Some (NilZero.string_of_int (Z.to_int n))
  | VStr s => Some (quote s)
  end.

(** The members of SerializeJSONObject: properties without a
    serialization are left out. *)
Fixpoint members (o : Obj) : list string :=
  match o with
  | [] => []
  | (k, v) :: o' =>
      match stringify_val v with
      | Some j => (quote k +:+ ":" +:+ j) :: members o'
      | None => members o'
      end
  end.

Fixpoint join (sep : string) (l : list string) : string :=
  match l with
  | [] => EmptyString
  | [x] => x
  | x :: l' => x +:+ sep +:+ join sep l'
  end.

Definition stringify_obj (o : Obj) : string :=
  "{" +:+ join "," (members o) +:+ "}".

(** [JSON.stringify(x)] for [x] an object or [undefined]. *)
Definition stringify (x : option Obj) : option string :=
  match x with
  | None => None
  | Some o => Some (stringify_obj o)
  end.

End Js.

(** ** Configuration: the provider's props *)

(** [string | HTMLElement]: a selector string, compared by value, or a DOM
    node, compared by identity. *)
Inductive Element :=
| Selector (s : string)
| Node (identity : nat).

Definition Element_eqb (a b : Element) : bool :=
  match a, b with
  | Selector s, Selector t => String.eqb s t
  | Node m, Node n => Nat.eqb m n
  | _, _ => false
  end.

Definition Element_truthy (e : Element) : bool :=
  match e with
  | Selector s => Js.truthy_string s
  | Node _ => true
  end.

Record Container := {
  element : option Element;
  parameters : Js.Obj
}.

Record Props := {
  reCaptchaKey : string;
  language : option string;
  useRecaptchaNet : option bool;
  useEnterprise : option bool;
  scriptProps : option Js.Obj;
  container : option Container;
  children : nat
}.

(** Destructuring defaults [useEnterprise = false], [useRecaptchaNet = false]. *)
Definition flag (b : option bool) : bool := default false b.

(** [container?.element] and [container?.parameters]. *)
Definition container_element (c : option Container) : option Element :=
  c ≫= element.

Definition container_parameters (c : option Container) : option Js.Obj :=
  parameters <$> c.

(** The truthiness test of [container?.element ? 'explicit' : reCaptchaKey]. *)
Definition explicit_mode (c : option Container) : bool :=
  match container_element c with
  | Some e => Element_truthy e
  | None => false
  end.


(** ** The verification engine (consumed capability) *)

(** [number | string]: the widget identifier held in [clientId]. *)
Inductive Ident :=
| IdStr (s : string)
| IdNum (n : Z).

(** The state of a promise. *)
Inductive Promise (A : Type) :=
| Pending
| Fulfilled (a : A)
| Rejected (reason : string).
Arguments Pending {A}.
Arguments Fulfilled {A} a.
Arguments Rejected {A} reason.

(** One engine namespace ([grecaptcha] or [grecaptcha.enterprise]).
    [execute] may be missing (the code tests for it); [render] receives the
    number of earlier render calls, so that an engine handing out fresh
    handles can be described. *)
Record Namespace := {
  ns_execute : option (Ident -> option string -> Promise string);
  ns_render : nat -> option Element -> Js.Obj -> Ident
}.

(** [window.grecaptcha]: the standard namespace, with an optional
    [enterprise] member. *)
Record Grecaptcha := {
  standard : Namespace;
  enterprise : option Namespace
}.

(** [useEnterprise ? window.grecaptcha.enterprise : window.grecaptcha];
    [None] is [undefined]. *)
Definition select_namespace (useEnterprise : bool) (g : Grecaptcha)
  : option Namespace :=
  if useEnterprise then enterprise g else Some (standard g).

(** ** Closures, the document and the log of calls to collaborators *)

(** The function stored under [window[onLoadCallbackName]], with what it
    captured from the render that ran the effect. *)
Record GlobalCallback := {
  cb_useEnterprise : bool;
  cb_reCaptchaKey : string;
  cb_container : option Container
}.

(** The argument of [injectGoogleReCaptchaScript]. The [onLoad] closure
    captures [useEnterprise], which the record holds already; [onError]
    captures nothing but the promise ref. *)
Record InjectArgs := {
  arg_render : string;
  arg_onLoadCallbackName : string;
  arg_useEnterprise : bool;
  arg_useRecaptchaNet : bool;
  arg_scriptProps : option Js.Obj;
  arg_language : option string
}.

Record ScriptTag := {
  tag_id : string;
  tag_args : InjectArgs
}.

Inductive IO :=
| Warn (msg : string)
| Inject (args : InjectArgs)
| Clean (scriptId : string) (el : option Element)
| Render (el : option Element) (params : Js.Obj)
| Uncaught (what : string).

Definition is_Inject (e : IO) : bool :=
  match e with Inject _ => true | _ => false end.
Definition is_Render (e : IO) : bool :=
  match e with Render _ _ => true | _ => false end.

(** ** State of one mounted provider and of its environment *)

(** The dependency list of the effect, in the order of the source. *)
Record Deps := {
  dep_useEnterprise : bool;
  dep_useRecaptchaNet : bool;
  dep_scriptPropsJson : option string;
  dep_parametersJson : option string;
  dep_language : option string;
  dep_reCaptchaKey : string;
  dep_element : option Element
}.

Definition deps_of (p : Props) : Deps :=
  {| dep_useEnterprise := flag (useEnterprise p);
     dep_useRecaptchaNet := flag (useRecaptchaNet p);
     dep_scriptPropsJson := Js.stringify (scriptProps p);
     dep_parametersJson := Js.stringify (container_parameters (container p));
     dep_language := language p;
     dep_reCaptchaKey := reCaptchaKey p;
     dep_element := container_element (container p) |}.

Definition option_eqb {A} (eqb : A -> A -> bool) (a b : option A) : bool :=
  match a, b with
  | Some x, Some y => eqb x y
  | None, None => true
  | _, _ => false
  end.

(** React's comparison of two dependency lists: [Object.is], element by
    element. *)
Definition deps_eqb (a b : Deps) : bool :=
  Bool.eqb (dep_useEnterprise a) (dep_useEnterprise b)
  && Bool.eqb (dep_useRecaptchaNet a) (dep_useRecaptchaNet b)
  && option_eqb String.eqb (dep_scriptPropsJson a) (dep_scriptPropsJson b)
  && option_eqb String.eqb (dep_parametersJson a) (dep_parametersJson b)
  && option_eqb String.eqb (dep_language a) (dep_language b)
  && String.eqb (dep_reCaptchaKey a) (dep_reCaptchaKey b)
  && option_eqb Element_eqb (dep_element a) (dep_element b).

(** A call of [executeRecaptcha] that has run to its end: the action, the
    value its [await] observed, and how the returned promise settled. *)
Record Completion := {
  c_action : option string;
  c_observed : option Namespace;
  c_result : Promise string
}.

Record State := {
  (* the mounted component *)
  mounted : bool;
  greCaptchaInstancePromise : Promise (option Namespace);
  clientId : Ident;
  effect_deps : Deps;
  effect_cleanup : option (string * option Element);
  (* calls of executeRecaptcha: suspended at the await, and finished *)
  waiting : list (option string);
  completed : list Completion;
  (* the global scope *)
  window_callbacks : gmap string GlobalCallback;
  window_grecaptcha : option Grecaptcha;
  ready_callbacks : list Namespace;
  (* the document *)
  scripts : list ScriptTag;
  (* calls to the collaborators, oldest first *)
  log : list IO
}.

Definition with_mounted (b : bool) (s : State) : State :=
  {| mounted := b;
     greCaptchaInstancePromise := greCaptchaInstancePromise s;
     clientId := clientId s; effect_deps := effect_deps s;
     effect_cleanup := effect_cleanup s; waiting := waiting s;
     completed := completed s; window_callbacks := window_callbacks s;
     window_grecaptcha := window_grecaptcha s;
     ready_callbacks := ready_callbacks s; scripts := scripts s;
     log := log s |}.

Definition with_clientId (i : Ident) (s : State) : State :=
  {| mounted := mounted s;
     greCaptchaInstancePromise := greCaptchaInstancePromise s;
     clientId := i; effect_deps := effect_deps s;
     effect_cleanup := effect_cleanup s; waiting := waiting s;
     completed := completed s; window_callbacks := window_callbacks s;
     window_grecaptcha := window_grecaptcha s;
     ready_callbacks := ready_callbacks s; scripts := scripts s;
     log := log s |}.

Definition with_effect (d : Deps) (c : option (string * option Element))
    (s : State) : State :=
  {| mounted := mounted s;
     greCaptchaInstancePromise := greCaptchaInstancePromise s;
     clientId := clientId s; effect_deps := d;
     effect_cleanup := c; waiting := waiting s;
     completed := completed s; window_callbacks := window_callbacks s;
     window_grecaptcha := window_grecaptcha s;
     ready_callbacks := ready_callbacks s; scripts := scripts s;
     log := log s |}.

Definition with_calls (p : Promise (option Namespace))
    (w : list (option string)) (c : list Completion) (s : State) : State :=
  {| mounted := mounted s;
     greCaptchaInstancePromise := p;
     clientId := clientId s; effect_deps := effect_deps s;
     effect_cleanup := effect_cleanup s; waiting := w;
     completed := c; window_callbacks := window_callbacks s;
     window_grecaptcha := window_grecaptcha s;
     ready_callbacks := ready_callbacks s; scripts := scripts s;
     log := log s |}.

Definition with_window_callbacks (m : gmap string GlobalCallback)
    (s : State) : State :=
  {| mounted := mounted s;
     greCaptchaInstancePromise := greCaptchaInstancePromise s;
     clientId := clientId s; effect_deps := effect_deps s;
     effect_cleanup := effect_cleanup s; waiting := waiting s;
     completed := completed s; window_callbacks := m;
     window_grecaptcha := window_grecaptcha s;
     ready_callbacks := ready_callbacks s; scripts := scripts s;
     log := log s |}.

Definition with_window_grecaptcha (g : option Grecaptcha) (s : State) : State :=
  {| mounted := mounted s;
     greCaptchaInstancePromise := greCaptchaInstancePromise s;
     clientId := clientId s; effect_deps := effect_deps s;
     effect_cleanup := effect_cleanup s; waiting := waiting s;
     completed := completed s; window_callbacks := window_callbacks s;
     window_grecaptcha := g;
     ready_callbacks := ready_callbacks s; scripts := scripts s;
     log := log s |}.

Definition with_ready_callbacks (q : list Namespace) (s : State) : State :=
  {| mounted := mounted s;
     greCaptchaInstancePromise := greCaptchaInstancePromise s;
     clientId := clientId s; effect_deps := effect_deps s;
     effect_cleanup := effect_cleanup s; waiting := waiting s;
     completed := completed s; window_callbacks := window_callbacks s;
     window_grecaptcha := window_grecaptcha s;
     ready_callbacks := q; scripts := scripts s;
     log := log s |}.

Definition with_scripts (l : list ScriptTag) (s : State) : State :=
  {| mounted := mounted s;
     greCaptchaInstancePromise := greCaptchaInstancePromise s;
     clientId := clientId s; effect_deps := effect_deps s;
     effect_cleanup := effect_cleanup s; waiting := waiting s;
     completed := completed s; window_callbacks := window_callbacks s;
     window_grecaptcha := window_grecaptcha s;
     ready_callbacks := ready_callbacks s; scripts := l;
     log := log s |}.

Definition emit (e : IO) (s : State) : State :=
  {| mounted := mounted s;
     greCaptchaInstancePromise := greCaptchaInstancePromise s;
     clientId := clientId s; effect_deps := effect_deps s;
     effect_cleanup := effect_cleanup s; waiting := waiting s;
     completed := completed s; window_callbacks := window_callbacks s;
     window_grecaptcha := window_grecaptcha s;
     ready_callbacks := ready_callbacks s; scripts := scripts s;
     log := log s ++ [e] |}.

Definition injections (s : State) : list IO := List.filter is_Inject (log s).
Definition renders (s : State) : list IO := List.filter is_Render (log s).

(** ** The helpers imported from [./utils] *)

(** Modelled from the spec: [promiseWithResolvers] is not part of the
    source file. The spec's deferred value is "a container resolved at most
    once, whose resolution all current and future waiters observe", and
    "re-resolving is a no-op": [resolve] settles a pending promise and
    resumes every caller suspended on it, and does nothing otherwise. The
    resumed callers run after the handler that resolved; no handler assigns
    [clientId] after resolving, so they read the [clientId] of the state in
    which [resolve] is called. *)
Definition promiseWithResolvers : Promise (option Namespace) := Pending.

Definition not_loaded_error : string :=
  "<GoogleReCaptchaProvider /> Google Recaptcha has not been loaded".

(** The body of [executeRecaptcha] after its [await], on the awaited
    value: lines 164-170. *)
Definition executeRecaptcha_after_await (inst : option Namespace)
    (cid : Ident) (action : option string) : Promise string :=
  match inst with
  | None => Rejected not_loaded_error
  | Some ns =>
      match ns_execute ns with
      | None => Rejected not_loaded_error
      | Some execute => execute cid action
      end
  end.

Definition complete (inst : option Namespace) (cid : Ident)
    (action : option string) : Completion :=
  {| c_action := action; c_observed := inst;
     c_result := executeRecaptcha_after_await inst cid action |}.

Definition resolve (v : option Namespace) (s : State) : State :=
  match greCaptchaInstancePromise s with
  | Pending =>
      with_calls (Fulfilled v) []
        (completed s ++ map (complete v (clientId s)) (waiting s)) s
  | _ => s
  end.

(** Modelled from the spec: [logWarningMessage] is not part of the source
    file; it is the console logging collaborator. *)
Definition logWarningMessage (msg : string) (s : State) : State :=
  emit (Warn msg) s.

Definition default_script_id : string := "google-recaptcha-v3".
Definition default_callback_name : string := "onRecaptchaLoadCallback".

(** Modelled from the spec: [injectGoogleReCaptchaScript] is not part of
    the source file. Per section 4.1 it injects a script tag into the
    document, with the tag id of the script options ("default a fixed
    constant"), and wires the two handlers it is given to the tag's load
    and error events. *)
Definition injectGoogleReCaptchaScript (a : InjectArgs) (s : State) : State :=
  let tag := {| tag_id := Js.string_or (arg_scriptProps a) "id" default_script_id;
                tag_args := a |} in
  with_scripts (scripts s ++ [tag]) (emit (Inject a) s).

(** Modelled from the spec: [cleanGoogleRecaptcha] is not part of the
    source file. Per section 4.1, [remove(scriptId, mountElement?)]
    "detaches the injected tag (by its id) and, only in explicit-render
    mode, also detaches the rendered widget's own DOM artifact"; the
    artifact is a node made by the engine, which the document of this model
    does not hold. *)
Definition cleanGoogleRecaptcha (scriptId : string) (el : option Element)
    (s : State) : State :=
  with_scripts
    (List.filter (fun t => negb (String.eqb (tag_id t) scriptId)) (scripts s))
    (emit (Clean scriptId el) s).

(** ** The provider *)

Definition key_missing_warning : string :=
  "<GoogleReCaptchaProvider /> recaptcha key not provided".
Definition SCRIPT_NOT_AVAILABLE : string := "Recaptcha script is not available".
Definition script_not_available_warning : string :=
  "<GoogleRecaptchaProvider /> " +:+ SCRIPT_NOT_AVAILABLE.
Definition load_error_warning : string :=
  "Error loading google recaptcha script".

Definition default_params (key : string) : Js.Obj :=
  [("badge", Js.VStr "inline"); ("size", Js.VStr "invisible");
   ("sitekey", Js.VStr key)].

(** The [params] object of the global callback, lines 103-108. *)
Definition render_params (key : string) (c : option Container) : Js.Obj :=
  Js.spread (default_params key) (default [] (container_parameters c)).

(** The function stored in [window[onLoadCallbackName]], lines 97-110.
    Reading a member of [undefined] raises a TypeError, which leaves the
    function before [clientId] is assigned. *)
Definition onLoadCallback (cb : GlobalCallback) (s : State) : State :=
  match window_grecaptcha s with
  | None => emit (Uncaught "TypeError") s
  | Some g =>
      match select_namespace (cb_useEnterprise cb) g with
      | None => emit (Uncaught "TypeError") s
      | Some grecaptcha =>
          let el := container_element (cb_container cb) in
          let params := render_params (cb_reCaptchaKey cb) (cb_container cb) in
          let handle := ns_render grecaptcha (length (renders s)) el params in
          with_clientId handle (emit (Render el params) s)
      end
  end.

(** [onLoad], lines 112-129; in a browser [window] is there, so the test
    of line 113 is on [window.grecaptcha]. [grecaptcha.ready(k)] hands the
    continuation to the engine, which calls it when its ready signal
    fires. *)
Definition onLoad (useEnterprise : bool) (s : State) : State :=
  match window_grecaptcha s with
  | None => resolve None (logWarningMessage script_not_available_warning s)
  | Some g =>
      match select_namespace useEnterprise g with
      | None => emit (Uncaught "TypeError") s
      | Some grecaptcha =>
          with_ready_callbacks (ready_callbacks s ++ [grecaptcha]) s
      end
  end.

(** The continuation passed to [grecaptcha.ready], line 127. *)
Definition onReady (grecaptcha : Namespace) (s : State) : State :=
  resolve (Some grecaptcha) s.

(** [onError], lines 131-134. *)
Definition onError (s : State) : State :=
  resolve None (logWarningMessage load_error_warning s).

(** [scriptProps?.id || 'google-recaptcha-v3'], line 92. *)
Definition scriptId_of (p : Props) : string :=
  Js.string_or (scriptProps p) "id" default_script_id.

(** [scriptProps?.onLoadCallbackName || 'onRecaptchaLoadCallback'],
    lines 93-94. *)
Definition onLoadCallbackName_of (p : Props) : string :=
  Js.string_or (scriptProps p) "onLoadCallbackName" default_callback_name.

(** The closure assigned to the global slot, with the props it captures. *)
Definition global_callback_of (p : Props) : GlobalCallback :=
  {| cb_useEnterprise := flag (useEnterprise p);
     cb_reCaptchaKey := reCaptchaKey p;
     cb_container := container p |}.

(** The object passed to [injectGoogleReCaptchaScript], lines 136-145. *)
Definition inject_args_of (p : Props) : InjectArgs :=
  {| arg_render := if explicit_mode (container p) then "explicit"
                   else reCaptchaKey p;
     arg_onLoadCallbackName := onLoadCallbackName_of p;
     arg_useEnterprise := flag (useEnterprise p);
     arg_useRecaptchaNet := flag (useRecaptchaNet p);
     arg_scriptProps := scriptProps p;
     arg_language := language p |}.

(** The body of the effect, lines 82-149; the cleanup it returns is kept as
    the arguments of its [cleanGoogleRecaptcha] call. *)
Definition effect (p : Props) (s : State) : State :=
  if negb (Js.truthy_string (reCaptchaKey p)) then
    with_effect (deps_of p) None
      (resolve None (logWarningMessage key_missing_warning s))
  else
    let s1 :=
      with_window_callbacks
        (<[onLoadCallbackName_of p := global_callback_of p]> (window_callbacks s)) s in
    with_effect (deps_of p)
      (Some (scriptId_of p, container_element (container p)))
      (injectGoogleReCaptchaScript (inject_args_of p) s1).

(** Running the cleanup returned by the last run of the effect, if it
    returned one. *)
Definition run_cleanup (s : State) : State :=
  match effect_cleanup s with
  | None => s
  | Some (scriptId, el) =>
      with_effect (effect_deps s) None (cleanGoogleRecaptcha scriptId el s)
  end.

(** The refs of a fresh mount (lines 72-77) in an environment without
    engine, callbacks or script tags. *)
Definition fresh (p : Props) : State :=
  {| mounted := true;
     greCaptchaInstancePromise := promiseWithResolvers;
     clientId := IdStr (reCaptchaKey p);
     effect_deps := deps_of p;
     effect_cleanup := None;
     waiting := []; completed := [];
     window_callbacks := ∅; window_grecaptcha := None;
     ready_callbacks := [];
     scripts := []; log := [] |}.

(** First render: the refs are created and the effect runs. *)
Definition mount (p : Props) : State := effect p (fresh p).

(** A later render with props [p]: the refs are kept; the effect re-runs,
    after the previous cleanup, when a dependency changed. *)
Definition rerender (p : Props) (s : State) : State :=
  if negb (mounted s) then s
  else if deps_eqb (effect_deps s) (deps_of p) then s
  else effect p (run_cleanup s).

Definition unmount (s : State) : State :=
  if negb (mounted s) then s else with_mounted false (run_cleanup s).

(** [executeRecaptcha(action)] called in state [s], lines 160-171: the
    state of the promise it returns once the microtasks have run. *)
Definition executeRecaptcha (s : State) (action : option string)
  : Promise string :=
  match greCaptchaInstancePromise s with
  | Pending => Pending
  | Rejected e => Rejected e
  | Fulfilled inst => executeRecaptcha_after_await inst (clientId s) action
  end.

(** The same call as an event: it is suspended while the promise is
    pending and runs to its end otherwise. *)
Definition call (action : option string) (s : State) : State :=
  match greCaptchaInstancePromise s with
  | Pending =>
      with_calls Pending (waiting s ++ [action]) (completed s) s
  | Rejected e =>
      with_calls (Rejected e) (waiting s)
        (completed s ++ [{| c_action := action; c_observed := None;
                            c_result := Rejected e |}]) s
  | Fulfilled inst =>
      with_calls (Fulfilled inst) (waiting s)
        (completed s ++ [complete inst (clientId s) action]) s
  end.

(** The default value of the context, lines 52-59: outside a provider
    [executeRecaptcha] throws before returning any promise. *)
Inductive CallResult :=
| Throws (error : string)
| Returns (p : Promise string).

Definition context_not_implemented_error : string :=
  "GoogleReCaptcha Context has not yet been implemented, if you are using useGoogleReCaptcha hook, make sure the hook is called inside component wrapped by GoogleRecaptchaProvider".

Definition default_executeRecaptcha (action : option string) : CallResult :=
  Throws context_not_implemented_error.

(** What a consumer gets from the context: the default value outside a
    mount, the provider's function inside. *)
Definition context_executeRecaptcha (provider : option State)
    (action : option string) : CallResult :=
  match provider with
  | None => default_executeRecaptcha action
  | Some s => Returns (executeRecaptcha s action)
  end.

(** ** Events *)

(** The engine's ready signal: it calls the continuations it was handed,
    in order. *)
Definition fire_ready (q : list Namespace) (s : State) : State :=
  fold_left (fun s k => onReady k s) q s.

Inductive Event :=
| Rerender (p : Props)
| Unmount
| DefineEngine (g : option Grecaptcha)
| InvokeGlobal (name : string)
| ScriptLoad (i : nat)
| ScriptError (i : nat)
| EngineReady
| Call (action : option string).

Definition step (s : State) (e : Event) : State :=
  match e with
  | Rerender p => rerender p s
  | Unmount => unmount s
  | DefineEngine g => with_window_grecaptcha g s
  | InvokeGlobal name =>
      match window_callbacks s !! name with
      | Some cb => onLoadCallback cb s
      | None => s
      end
  | ScriptLoad i =>
      match scripts s !! i with
      | Some t => onLoad (arg_useEnterprise (tag_args t)) s
      | None => s
      end
  | ScriptError i =>
      match scripts s !! i with
      | Some _ => onError s
      | None => s
      end
  | EngineReady =>
      fire_ready (ready_callbacks s) (with_ready_callbacks [] s)
  | Call action => call action s
  end.

Definition run (s : State) (es : list Event) : State := fold_left step es s.

(** ** Predicates used in the statements *)

(** The promise is never rejected; while it is pending no call has
    finished; once it holds a value no call is suspended and every finished
    call observed that value. *)
Definition latch_inv (s : State) : Prop :=
  match greCaptchaInstancePromise s with
  | Pending => completed s = []
  | Fulfilled v =>
      waiting s = [] /\ Forall (fun c => c_observed c = v) (completed s)
  | Rejected _ => False
  end.

Definition is_Call (e : Event) : bool :=
  match e with Call _ => true | _ => false end.

(** The number of [executeRecaptcha] calls in a list of events, and the
    number of calls a state accounts for. *)
Fixpoint calls_made (es : list Event) : nat :=
  match es with
  | [] => 0
  | e :: es' => (if is_Call e then 1 else 0) + calls_made es'
  end.

Definition calls_tracked (s : State) : nat :=
  length (waiting s) + length (completed s).

(** Events that run none of the three resolvers and leave the document
    alone: the script defining the engine, the script invoking a global
    callback, a consumer calling [executeRecaptcha]. *)
Definition passive (e : Event) : Prop :=
  match e with
  | InvokeGlobal _ | Call _ | DefineEngine _ => True
  | _ => False
  end.

(** The tag made by [injectGoogleReCaptchaScript] for the props [p]. *)
Definition script_tag_of (p : Props) : ScriptTag :=
  {| tag_id := scriptId_of p; tag_args := inject_args_of p |}.

Definition is_InvokeGlobal (e : Event) : bool :=
  match e with InvokeGlobal _ => true | _ => false end.



(** Props that differ from [p] in the render parameters only, or in the
    children only. *)
Definition with_parameters (o : Js.Obj) (p : Props) : Props :=
  {| reCaptchaKey := reCaptchaKey p; language := language p;
     useRecaptchaNet := useRecaptchaNet p; useEnterprise := useEnterprise p;
     scriptProps := scriptProps p;
     container := Some {| element := container_element (container p);
                          parameters := o |};
     children := children p |}.

Definition with_children (n : nat) (p : Props) : Props :=
  {| reCaptchaKey := reCaptchaKey p; language := language p;
     useRecaptchaNet := useRecaptchaNet p; useEnterprise := useEnterprise p;
     scriptProps := scriptProps p; container := container p;
     children := n |}.

(** ** The statements of the spec that the code does not satisfy *)

(** In implicit mode the global callback fires but renders nothing and
    leaves the identifier at the site key. *)
Definition implicit_callback_is_inert (p : Props) (g : Grecaptcha) : Prop :=
  container_element (container p) = None ->
  let s := run (mount p)
             [DefineEngine (Some g); InvokeGlobal (onLoadCallbackName_of p)] in
  renders s = [] /\ clientId s = IdStr (reCaptchaKey p).


(** After teardown the script tag is gone and the global callback slot of
    the configured name is cleared. *)
Definition teardown_clears_callback (p : Props) : Prop :=
  let s := run (mount p) [Unmount] in
  (forall t, In t (scripts s) -> tag_id t <> scriptId_of p)
  /\ window_callbacks s !! onLoadCallbackName_of p = None.

(** Re-rendering with [p'] after mounting with [p] makes exactly one
    teardown followed by exactly one injection. *)
Definition restarts_once (p p' : Props) : Prop :=
  log (rerender p' (mount p))
  = log (mount p)
    ++ [Clean (scriptId_of p) (container_element (container p));
        Inject (inject_args_of p')].

(** ** The scenarios of the spec as concrete inputs *)

Module Scenario.

Definition show (i : Ident) : string :=
  match i with
  | IdStr s => "key " +:+ s
  | IdNum n => "widget " +:+ NilZero.string_of_int (Z.to_int n)
  end.

(** An engine whose tokens tell the identifier and the action they were
    made for, and whose render hands out the handles 0, 1, 2, ... *)
Definition execute (i : Ident) (action : option string) : Promise string :=
  Fulfilled ("token for " +:+ show i +:+ ", " +:+ default "undefined" action).

Definition grecaptcha : Namespace :=
  {| ns_execute := Some execute;
     ns_render := fun n _ _ => IdNum (Z.of_nat n) |}.

Definition engine : Grecaptcha :=
  {| standard := grecaptcha; enterprise := None |}.

Definition props (key : string) (c : option Container) : Props :=
  {| reCaptchaKey := key; language := None; useRecaptchaNet := None;
     useEnterprise := None; scriptProps := None; container := c;
     children := 0 |}.

(** Scenario A: key "abc", no container. *)
Definition A : Props := props "abc" None.

(** Scenario B: key "abc", container element [#box]. *)
Definition B : Props :=
  props "abc" (Some {| element := Some (Selector "#box");
                       parameters := [("theme", Js.VStr "dark")] |}).

(** Scenario C: no key. *)
Definition C : Props := props EmptyString None.

(** Scenario B with a success callback, the function [f]. *)
Definition B_callback (f : nat) : Props :=
  props "abc" (Some {| element := Some (Selector "#box");
                       parameters := [("callback", Js.VFun f)] |}).

(** An engine with an enterprise namespace of its own, whose tokens and
    handles (100, 101, ...) tell it from the standard one. *)
Definition enterprise_execute (i : Ident) (action : option string)
  : Promise string :=
  Fulfilled ("enterprise token for " +:+ show i +:+ ", "
             +:+ default "undefined" action).

Definition enterprise_grecaptcha : Namespace :=
  {| ns_execute := Some enterprise_execute;
     ns_render := fun n _ _ => IdNum (100 + Z.of_nat n) |}.

Definition enterprise_engine : Grecaptcha :=
  {| standard := grecaptcha; enterprise := Some enterprise_grecaptcha |}.

(** Key "abc" with the enterprise flag set, and the container [c]. *)
Definition enterprise_props (c : option Container) : Props :=
  {| reCaptchaKey := "abc"; language := None; useRecaptchaNet := None;
     useEnterprise := Some true; scriptProps := None; container := c;
     children := 0 |}.

End Scenario.

(** ** The value published to the context *)

(** The object made by the [useMemo] of lines 173-179. Its
    [executeRecaptcha] member is the function made by the [useCallback] of
    line 160 with an empty dependency list, the same at every render, so
    the object is told by its [container] member and by its identity (the
    number of times the memo has been recomputed). *)
Record ContextValue := {
  ctx_container : option Element;
  ctx_identity : nat
}.

(** The first render computes the value. *)
Definition first_context (p : Props) : ContextValue :=
  {| ctx_container := container_element (container p); ctx_identity := 0 |}.

(** A later render recomputes it when [container?.element] is not the
    element of the previous render ([Object.is]); the other dependency,
    [executeRecaptcha], never changes. *)
Definition next_context (p : Props) (c : ContextValue) : ContextValue :=
  if option_eqb Element_eqb (ctx_container c) (container_element (container p))
  then c
  else {| ctx_container := container_element (container p);
          ctx_identity := S (ctx_identity c) |}.

(** The value after a first render with [p0] and later renders with [ps]. *)
Definition context_after (p0 : Props) (ps : list Props) : ContextValue :=
  fold_left (fun c p => next_context p c) ps (first_context p0).

(** How often the mount element changes along a sequence of renders that
    starts from the element [e]. *)
Fixpoint element_changes (e : option Element) (ps : list Props) : nat :=
  match ps with
  | [] => 0
  | p :: ps' =>
      (if option_eqb Element_eqb e (container_element (container p))
       then 0 else 1)
      + element_changes (container_element (container p)) ps'
  end.

(** ** Further predicates *)

Definition is_Clean (e : IO) : bool :=
  match e with Clean _ _ => true | _ => false end.

Definition cleanups (s : State) : list IO := List.filter is_Clean (log s).

(** The actions of the [executeRecaptcha] calls in a list of events. *)
Fixpoint called_actions (es : list Event) : list (option string) :=
  match es with
  | [] => []
  | Call a :: es' => a :: called_actions es'
  | _ :: es' => called_actions es'
  end.

(** At most one injected script is alive: with no cleanup registered there
    is no tag and every injection was cleaned; with a cleanup registered
    there is the one tag it will remove, injected once more than cleaned, and
    the global slot named in the tag holds a callback that selects the
    namespace the tag's load handler selects. *)
Definition one_script (s : State) : Prop :=
  match effect_cleanup s with
  | None =>
      scripts s = [] /\ length (injections s) = length (cleanups s)
  | Some (scriptId, el) =>
      (exists t cb,
          scripts s = [t] /\ tag_id t = scriptId
          /\ window_callbacks s !! arg_onLoadCallbackName (tag_args t) = Some cb
          /\ cb_useEnterprise cb = arg_useEnterprise (tag_args t))
      /\ length (injections s) = S (length (cleanups s))
  end.

(** No render of the events uses the callback name [name]. *)
Definition leaves_name (name : string) (e : Event) : Prop :=
  match e with
  | Rerender p => onLoadCallbackName_of p <> name
  | _ => True
  end.


(** ** Reading a serialization back *)

(** The value of a lower-case hexadecimal digit. *)
Definition hex_value (c : Ascii.ascii) : nat :=
  let n := Ascii.nat_of_ascii c in
  if Nat.leb 97 n then n - 87 else n - 48.

(** The character that follows a backslash in an escape of two
    characters. *)
Definition unescape_char (c : Ascii.ascii) : Ascii.ascii :=
  let n := Ascii.nat_of_ascii c in
  if Nat.eqb n 98 then Ascii.ascii_of_nat 8
  else if Nat.eqb n 116 then Ascii.ascii_of_nat 9
  else if Nat.eqb n 110 then Ascii.ascii_of_nat 10
  else if Nat.eqb n 102 then Ascii.ascii_of_nat 12
  else if Nat.eqb n 114 then Ascii.ascii_of_nat 13
  else c.

(** The inverse of [Js.escape]; it is used to show that two strings with
    the same JSON are the same string. *)
Fixpoint unescape (s : string) : string :=
  match s with
  | EmptyString => EmptyString
  | String c r =>
      if Nat.eqb (Ascii.nat_of_ascii c) 92 then
        match r with
        | EmptyString => EmptyString
        | String d r' =>
            if Nat.eqb (Ascii.nat_of_ascii d) 117 then
              match r' with
              | String _ (String _ (String x (String y r''))) =>
                  String (Ascii.ascii_of_nat (16 * hex_value x + hex_value y))
                    (unescape r'')
              | _ => EmptyString
              end
            else String (unescape_char d) (unescape r')
        end
      else String c (unescape r)
  end.

(** The integers that are JavaScript Numbers of their own and are printed
    in decimal digits. *)
Definition safe_integer (n : Z) : Prop :=
  (- (2 ^ 53 - 1) <= n <= 2 ^ 53 - 1)%Z.

(** A string, a boolean or a safe integer. *)
Definition plain_value (v : Js.Val) : Prop :=
  match v with
  | Js.VStr _ | Js.VBool _ => True
  | Js.VNum n => safe_integer n
  | Js.VUndefined | Js.VFun _ => False
  end.

(** Props that differ from [p] in the script options only. *)
Definition with_scriptProps (o : Js.Obj) (p : Props) : Props :=
  {| reCaptchaKey := reCaptchaKey p; language := language p;
     useRecaptchaNet := useRecaptchaNet p; useEnterprise := useEnterprise p;
     scriptProps := Some o; container := container p;
     children := children p |}.

(** * Properties *)

(** ** Running events *)

Lemma run_app s es1 es2 : run s (es1 ++ es2) = run (run s es1) es2.
Proof. apply fold_left_app. Qed.

Lemma run_cons s e es : run s (e :: es) = run (step s e) es.
Proof. reflexivity. Qed.

(** A property kept by every step is kept by every run. *)
Lemma run_invariant (I : State -> Prop) :
  (forall s e, I s -> I (step s e)) ->
  forall es s, I s -> I (run s es).
Proof.
  intros Hstep es. induction es as [|e es IH]; intros s Hs; [exact Hs|].
  rewrite run_cons. apply IH, Hstep, Hs.
Qed.

(** ** The deferred value is a latch *)

Ltac unfold_handlers :=
  unfold rerender, unmount, run_cleanup, effect, onLoadCallback, onLoad,
    onError, onReady, call, cleanGoogleRecaptcha, injectGoogleReCaptchaScript,
    logWarningMessage.

Ltac split_cases :=
  repeat match goal with
    | |- context [match ?x with _ => _ end] => destruct x eqn:?; cbn in *
    | |- context [if ?b then _ else _] => destruct b eqn:?; cbn in *
    end.

Lemma resolve_pending v s :
  greCaptchaInstancePromise s = Pending ->
  greCaptchaInstancePromise (resolve v s) = Fulfilled v.
Proof. intros H. unfold resolve. rewrite H. reflexivity. Qed.

Lemma resolve_settled v s :
  greCaptchaInstancePromise s <> Pending -> resolve v s = s.
Proof.
  intros H. unfold resolve.
  destruct (greCaptchaInstancePromise s); [contradiction| |]; reflexivity.
Qed.

Lemma resolve_fulfilled v w s :
  greCaptchaInstancePromise s = Fulfilled w -> resolve v s = s.
Proof. intros H. apply resolve_settled. rewrite H. discriminate. Qed.

Lemma resolve_frame v s :
  clientId (resolve v s) = clientId s
  /\ log (resolve v s) = log s
  /\ scripts (resolve v s) = scripts s
  /\ window_callbacks (resolve v s) = window_callbacks s
  /\ window_grecaptcha (resolve v s) = window_grecaptcha s
  /\ ready_callbacks (resolve v s) = ready_callbacks s
  /\ mounted (resolve v s) = mounted s
  /\ effect_cleanup (resolve v s) = effect_cleanup s
  /\ effect_deps (resolve v s) = effect_deps s.
Proof.
  unfold resolve. destruct (greCaptchaInstancePromise s); cbn; repeat split.
Qed.

(** [resolve] never replaces a value that is there. *)
Lemma resolve_keeps v w s :
  greCaptchaInstancePromise s = Fulfilled w ->
  greCaptchaInstancePromise (resolve v s) = Fulfilled w.
Proof. intros H. rewrite (resolve_fulfilled v w s H). exact H. Qed.

Lemma fire_ready_keeps q : forall s w,
  greCaptchaInstancePromise s = Fulfilled w ->
  greCaptchaInstancePromise (fire_ready q s) = Fulfilled w.
Proof.
  induction q as [|k q IH]; intros s w H; [exact H|].
  cbn. apply IH. unfold onReady. apply resolve_keeps, H.
Qed.

Lemma step_keeps_fulfilled s e w :
  greCaptchaInstancePromise s = Fulfilled w ->
  greCaptchaInstancePromise (step s e) = Fulfilled w.
Proof.
  intros H. destruct e; cbn.
  - unfold_handlers. split_cases; try exact H;
      unfold resolve; cbn; rewrite ?H; cbn; exact H.
  - unfold_handlers. split_cases; exact H.
  - exact H.
  - unfold_handlers. split_cases; exact H.
  - unfold_handlers. split_cases; try exact H.
    unfold resolve; cbn; rewrite H; exact H.
  - unfold_handlers. split_cases; try exact H.
    unfold resolve; cbn; rewrite H; exact H.
  - apply fire_ready_keeps. exact H.
  - unfold_handlers. rewrite H. reflexivity.
Qed.

Lemma run_keeps_fulfilled es : forall s w,
  greCaptchaInstancePromise s = Fulfilled w ->
  greCaptchaInstancePromise (run s es) = Fulfilled w.
Proof.
  intros s w. apply (run_invariant (fun s => greCaptchaInstancePromise s = Fulfilled w)).
  intros s' e. apply step_keeps_fulfilled.
Qed.

(** ** The invariant of the deferred value and of the calls *)

Lemma latch_inv_resolve v s : latch_inv s -> latch_inv (resolve v s).
Proof.
  unfold latch_inv, resolve.
  destruct (greCaptchaInstancePromise s) eqn:E; cbn; rewrite ?E; try done.
  intros ->. split; [done|]. cbn.
  apply Forall_forall. intros c Hc. apply list_elem_of_fmap in Hc as (a & -> & _). done.
Qed.

Lemma latch_inv_fire_ready q : forall s, latch_inv s -> latch_inv (fire_ready q s).
Proof.
  induction q as [|k q IH]; intros s H; [exact H|].
  cbn. apply IH. apply latch_inv_resolve, H.
Qed.

Lemma latch_inv_call a s : latch_inv s -> latch_inv (call a s).
Proof.
  unfold latch_inv, call.
  destruct (greCaptchaInstancePromise s) eqn:E; cbn; try done.
  intros [-> H]. split; [done|]. apply Forall_app. split; [done|].
  by constructor.
Qed.

Lemma latch_inv_step s e : latch_inv s -> latch_inv (step s e).
Proof.
  intros H. destruct e; cbn.
  - unfold_handlers. split_cases; try exact H;
      apply (latch_inv_resolve None), H.
  - unfold_handlers. split_cases; exact H.
  - exact H.
  - unfold_handlers. split_cases; exact H.
  - unfold_handlers. split_cases; try exact H.
    apply (latch_inv_resolve None), H.
  - unfold_handlers. split_cases; try exact H.
    apply (latch_inv_resolve None), H.
  - apply latch_inv_fire_ready, H.
  - apply latch_inv_call, H.
Qed.

Lemma latch_inv_mount p : latch_inv (mount p).
Proof.
  unfold mount, effect.
  destruct (negb (Js.truthy_string (reCaptchaKey p))).
  - apply (latch_inv_resolve None). reflexivity.
  - reflexivity.
Qed.

Lemma calls_tracked_resolve v s : calls_tracked (resolve v s) = calls_tracked s.
Proof.
  unfold calls_tracked, resolve.
  destruct (greCaptchaInstancePromise s); cbn; [|done..].
  rewrite length_app, length_map. lia.
Qed.

Lemma calls_tracked_fire_ready q : forall s,
  calls_tracked (fire_ready q s) = calls_tracked s.
Proof.
  induction q as [|k q IH]; intros s; [done|].
  cbn. rewrite IH. apply calls_tracked_resolve.
Qed.

Ltac through_resolve lem :=
  match goal with
  | |- context [resolve ?v ?x] => etrans; [exact (lem v x)|reflexivity]
  end.

Lemma calls_tracked_step s e :
  calls_tracked (step s e) = calls_tracked s + (if is_Call e then 1 else 0).
Proof.
  destruct e; cbn; rewrite ?Nat.add_0_r.
  - unfold_handlers. split_cases; try done;
      through_resolve calls_tracked_resolve.
  - unfold_handlers. split_cases; done.
  - done.
  - unfold_handlers. split_cases; done.
  - unfold_handlers. split_cases; try done.
    through_resolve calls_tracked_resolve.
  - unfold_handlers. split_cases; try done.
    through_resolve calls_tracked_resolve.
  - etrans; [apply calls_tracked_fire_ready|reflexivity].
  - unfold call, calls_tracked. split_cases; rewrite ?length_app; cbn; lia.
Qed.

Lemma calls_tracked_run es : forall s,
  calls_tracked (run s es) = calls_tracked s + calls_made es.
Proof.
  induction es as [|e es IH]; intros s; [cbn; lia|].
  rewrite run_cons, IH, calls_tracked_step. cbn. lia.
Qed.

(** ** Events that resolve nothing *)

Lemma passive_step_frame s e :
  passive e ->
  greCaptchaInstancePromise (step s e) = greCaptchaInstancePromise s
  /\ scripts (step s e) = scripts s
  /\ ready_callbacks (step s e) = ready_callbacks s.
Proof.
  destruct e; cbn; try contradiction; intros _.
  - done.
  - unfold_handlers. split_cases; done.
  - unfold call. split_cases; done.
Qed.

Lemma passive_run_frame es : forall s,
  Forall passive es ->
  greCaptchaInstancePromise (run s es) = greCaptchaInstancePromise s
  /\ scripts (run s es) = scripts s
  /\ ready_callbacks (run s es) = ready_callbacks s.
Proof.
  induction es as [|e es IH]; intros s H; [done|].
  apply Forall_cons in H as [He Hes]. rewrite run_cons.
  destruct (IH (step s e) Hes) as (-> & -> & ->).
  by apply passive_step_frame.
Qed.

Lemma mount_loading p :
  Js.truthy_string (reCaptchaKey p) = true ->
  greCaptchaInstancePromise (mount p) = Pending
  /\ scripts (mount p) = [script_tag_of p]
  /\ ready_callbacks (mount p) = [].
Proof. intros H. unfold mount, effect. rewrite H. done. Qed.

Lemma executeRecaptcha_ready s grecaptcha execute action :
  greCaptchaInstancePromise s = Fulfilled (Some grecaptcha) ->
  ns_execute grecaptcha = Some execute ->
  executeRecaptcha s action = execute (clientId s) action.
Proof.
  intros H E. unfold executeRecaptcha, executeRecaptcha_after_await.
  by rewrite H, E.
Qed.

(** ** Objects: lookup after assignment and spread *)

Lemma get_set o k v k' :
  Js.get (Js.set o k v) k' = if String.eqb k k' then Some v else Js.get o k'.
Proof.
  induction o as [|[k0 v0] o IH]; cbn.
  - done.
  - destruct (String.eqb k0 k) eqn:E; cbn.
    + apply String.eqb_eq in E as ->.
      destruct (String.eqb k k'); done.
    + rewrite IH. destruct (String.eqb k0 k') eqn:E'; [|done].
      apply String.eqb_eq in E' as ->. by rewrite String.eqb_sym, E.
Qed.

Lemma get_not_in o k : k ∉ o.*1 -> Js.get o k = None.
Proof.
  induction o as [|[k0 v0] o IH]; cbn; [done|].
  intros H. apply not_elem_of_cons in H as [Hne H].
  destruct (String.eqb k0 k) eqn:E; [|by apply IH].
  apply String.eqb_eq in E. congruence.
Qed.

(** A property of the spread's right operand wins over the left operand. *)
Lemma get_spread b : forall a k,
  NoDup b.*1 ->
  Js.get (Js.spread a b) k
  = match Js.get b k with Some v => Some v | None => Js.get a k end.
Proof.
  unfold Js.spread.
  induction b as [|[k0 v0] b IH]; intros a k Hnd; cbn; [done|].
  apply NoDup_cons in Hnd as [Hk0 Hnd].
  rewrite IH by done. destruct (String.eqb k0 k) eqn:E.
  - apply String.eqb_eq in E as ->.
    rewrite (get_not_in b k Hk0), get_set, String.eqb_refl. done.
  - rewrite get_set, E. done.
Qed.

(** ** The widget identifier, the effect and the global callback *)

Lemma fire_ready_clientId q : forall s, clientId (fire_ready q s) = clientId s.
Proof.
  induction q as [|k q IH]; intros s; [done|].
  cbn. rewrite IH. unfold onReady. apply resolve_frame.
Qed.

Lemma step_clientId s e :
  is_InvokeGlobal e = false -> clientId (step s e) = clientId s.
Proof.
  destruct e; cbn; try discriminate; intros _.
  - unfold_handlers. split_cases; try done;
      through_resolve (fun v x => proj1 (resolve_frame v x)).
  - unfold_handlers. split_cases; done.
  - done.
  - unfold_handlers. split_cases; try done.
    through_resolve (fun v x => proj1 (resolve_frame v x)).
  - unfold_handlers. split_cases; try done.
    through_resolve (fun v x => proj1 (resolve_frame v x)).
  - etrans; [apply fire_ready_clientId|done].
  - unfold call. split_cases; done.
Qed.

Lemma run_clientId es : forall s,
  Forall (fun e => is_InvokeGlobal e = false) es ->
  clientId (run s es) = clientId s.
Proof.
  induction es as [|e es IH]; intros s H; [done|].
  apply Forall_cons in H as [He Hes].
  rewrite run_cons, IH, step_clientId; done.
Qed.

Lemma mount_clientId p : clientId (mount p) = IdStr (reCaptchaKey p).
Proof.
  unfold mount, effect. destruct (negb _); done.
Qed.

(** What the effect does for a non-empty key. *)
Lemma effect_with_key p s :
  Js.truthy_string (reCaptchaKey p) = true ->
  window_callbacks (effect p s)
  = <[onLoadCallbackName_of p := global_callback_of p]> (window_callbacks s)
  /\ scripts (effect p s) = scripts s ++ [script_tag_of p]
  /\ log (effect p s) = log s ++ [Inject (inject_args_of p)]
  /\ effect_cleanup (effect p s)
     = Some (scriptId_of p, container_element (container p))
  /\ effect_deps (effect p s) = deps_of p
  /\ greCaptchaInstancePromise (effect p s) = greCaptchaInstancePromise s
  /\ window_grecaptcha (effect p s) = window_grecaptcha s
  /\ clientId (effect p s) = clientId s
  /\ mounted (effect p s) = mounted s.
Proof. intros H. unfold effect. rewrite H. cbn. done. Qed.

(** What the effect does for an empty key. *)
Lemma effect_without_key p s :
  Js.truthy_string (reCaptchaKey p) = false ->
  window_callbacks (effect p s) = window_callbacks s
  /\ scripts (effect p s) = scripts s
  /\ log (effect p s) = log s ++ [Warn key_missing_warning]
  /\ effect_cleanup (effect p s) = None
  /\ effect_deps (effect p s) = deps_of p
  /\ greCaptchaInstancePromise (effect p s)
     = match greCaptchaInstancePromise s with
       | Pending => Fulfilled None
       | q => q
       end
  /\ mounted (effect p s) = mounted s.
Proof.
  intros H. unfold effect, resolve. rewrite H. cbn.
  destruct (greCaptchaInstancePromise s) eqn:E; cbn; rewrite ?E; done.
Qed.

(** The global callback, once the engine namespace it selects is there. *)
Lemma onLoadCallback_renders cb s g grecaptcha :
  window_grecaptcha s = Some g ->
  select_namespace (cb_useEnterprise cb) g = Some grecaptcha ->
  let el := container_element (cb_container cb) in
  let params := render_params (cb_reCaptchaKey cb) (cb_container cb) in
  log (onLoadCallback cb s) = log s ++ [Render el params]
  /\ clientId (onLoadCallback cb s)
     = ns_render grecaptcha (length (renders s)) el params.
Proof. intros Hg Hns. unfold onLoadCallback. rewrite Hg, Hns. done. Qed.

(** ** Comparing dependency lists *)

Lemma option_eqb_eq {A} (eqb : A -> A -> bool) :
  (forall x y, eqb x y = true <-> x = y) ->
  forall a b, option_eqb eqb a b = true <-> a = b.
Proof.
  intros H [x|] [y|]; cbn; try done.
  rewrite H. split; congruence.
Qed.

Lemma Element_eqb_eq a b : Element_eqb a b = true <-> a = b.
Proof.
  destruct a, b; cbn; try done.
  - rewrite String.eqb_eq. split; congruence.
  - rewrite Nat.eqb_eq. split; congruence.
Qed.

(** React's comparison of the dependency lists decides their equality. *)
Lemma deps_eqb_eq a b : deps_eqb a b = true <-> a = b.
Proof.
  unfold deps_eqb. rewrite !andb_true_iff, !Bool.eqb_true_iff.
  rewrite !(option_eqb_eq String.eqb String.eqb_eq).
  rewrite (option_eqb_eq Element_eqb Element_eqb_eq), String.eqb_eq.
  destruct a, b; cbn. split.
  - intros ((((((-> & ->) & ->) & ->) & ->) & ->) & ->). done.
  - intros [= -> -> -> -> -> -> ->]. done.
Qed.

Lemma deps_eqb_neq a b : a <> b -> deps_eqb a b = false.
Proof.
  intros H. destruct (deps_eqb a b) eqn:E; [|done].
  by apply deps_eqb_eq in E.
Qed.

(** A function-valued property is invisible to [JSON.stringify], whatever
    the function. *)
Lemma members_set_function o k f f' :
  Js.members (Js.set o k (Js.VFun f)) = Js.members (Js.set o k (Js.VFun f')).
Proof.
  induction o as [|[k0 v0] o IH]; cbn; [done|].
  destruct (String.eqb k0 k); cbn; [done|]. by rewrite IH.
Qed.

(** ** A mount without key *)

Lemma truthy_string_false k : Js.truthy_string k = false <-> k = EmptyString.
Proof. destruct k; cbn; split; congruence. Qed.

Lemma truthy_string_true k : Js.truthy_string k = true <-> k <> EmptyString.
Proof. destruct k; cbn; split; congruence. Qed.




(** ** Load failures and teardown *)

Lemma executeRecaptcha_null s action :
  greCaptchaInstancePromise s = Fulfilled None ->
  executeRecaptcha s action = Rejected not_loaded_error.
Proof. intros H. unfold executeRecaptcha. by rewrite H. Qed.




(** Teardown after an effect run that injected a script. *)
Lemma run_cleanup_after_effect p s :
  Js.truthy_string (reCaptchaKey p) = true ->
  let s1 := effect p s in
  let s2 := run_cleanup s1 in
  log s2 = log s1 ++ [Clean (scriptId_of p) (container_element (container p))]
  /\ (forall t, In t (scripts s2) -> tag_id t <> scriptId_of p)
  /\ window_callbacks s2 = window_callbacks s1
  /\ effect_cleanup s2 = None.
Proof.
  intros H s1 s2. subst s1 s2. unfold run_cleanup.
  destruct (effect_with_key p s H) as (_ & _ & _ & -> & _).
  cbn. repeat split.
  intros t Ht E. apply List.filter_In in Ht as [_ Ht].
  rewrite E, String.eqb_refl in Ht. done.
Qed.

(** Invoking the callback that the effect has just registered. *)
Lemma invoke_registered_callback p s g grecaptcha :
  Js.truthy_string (reCaptchaKey p) = true ->
  window_grecaptcha s = Some g ->
  select_namespace (flag (useEnterprise p)) g = Some grecaptcha ->
  let s1 := effect p s in
  let s2 := step s1 (InvokeGlobal (onLoadCallbackName_of p)) in
  let el := container_element (container p) in
  let params := render_params (reCaptchaKey p) (container p) in
  log s2 = log s1 ++ [Render el params]
  /\ clientId s2 = ns_render grecaptcha (length (renders s1)) el params.
Proof.
  intros Hkey Hg Hns s1 s2 el params. subst s1 s2. cbn.
  destruct (effect_with_key p s Hkey) as (-> & _ & _ & _ & _ & _ & Hg' & _).
  rewrite lookup_insert_eq.
  apply (onLoadCallback_renders (global_callback_of p) _ g grecaptcha).
  - by rewrite Hg'.
  - exact Hns.
Qed.



(** The flag selects [grecaptcha.enterprise] when the prop is [true], and
    [grecaptcha] itself when it is [false] or left out. *)
Lemma select_namespace_flag u g :
  select_namespace (flag u) g
  = match u with
    | Some true => enterprise g
    | _ => Some (standard g)
    end.
Proof. by destruct u as [[]|]. Qed.


(** * The claims *)

(** C1 (amended). The global callback renders and overwrites the widget
    identifier whenever it is invoked with the engine namespace present,
    whether or not a mount element is configured: it calls [render] with
    [container?.element] (undefined in implicit mode) and the merged
    parameters and stores the handle it gets. The identifier is the site key
    of the first render for as long as no global callback has been invoked,
    and [executeRecaptcha] passes the current identifier to [execute]. *)
Theorem global_callback_renders_whenever_invoked :
  (forall p s g grecaptcha,
      reCaptchaKey p <> EmptyString ->
      window_grecaptcha s = Some g ->
      select_namespace (flag (useEnterprise p)) g = Some grecaptcha ->
      let s1 := effect p s in
      let s2 := step s1 (InvokeGlobal (onLoadCallbackName_of p)) in
      let el := container_element (container p) in
      let params := render_params (reCaptchaKey p) (container p) in
      log s2 = log s1 ++ [Render el params]
      /\ clientId s2 = ns_render grecaptcha (length (renders s1)) el params)
  /\ (forall p es,
         Forall (fun e => is_InvokeGlobal e = false) es ->
         clientId (run (mount p) es) = IdStr (reCaptchaKey p))
  /\ (forall s grecaptcha execute action,
         greCaptchaInstancePromise s = Fulfilled (Some grecaptcha) ->
         ns_execute grecaptcha = Some execute ->
         executeRecaptcha s action = execute (clientId s) action).
Proof.
  split; [|split].
  - intros p s g grecaptcha Hkey. apply invoke_registered_callback.
    by apply truthy_string_true.
  - intros p es H. rewrite run_clientId by done. apply mount_clientId.
  - intros s grecaptcha execute action. apply executeRecaptcha_ready.
Qed.

Lemma global_callback_renders_whenever_invoked_witness :
  let s1 := effect Scenario.A
              (with_window_grecaptcha (Some Scenario.engine) (fresh Scenario.A)) in
  let s2 := step s1 (InvokeGlobal "onRecaptchaLoadCallback") in
  log s2 = log s1 ++ [Render None (default_params "abc")]
  /\ clientId s2 = IdNum 0.
Proof.
  apply (proj1 global_callback_renders_whenever_invoked Scenario.A
           (with_window_grecaptcha (Some Scenario.engine) (fresh Scenario.A))
           Scenario.engine Scenario.grecaptcha).
  - discriminate.
  - reflexivity.
  - reflexivity.
Defined.

(** C1 as stated fails: with key "abc" and no container, the invoked
    callback calls [render] (with an undefined element) and replaces the
    identifier "abc" by the handle 0, which [executeRecaptcha] then uses. *)
Lemma implicit_callback_not_inert :
  container_element (container Scenario.A) = None
  /\ (let s := run (mount Scenario.A)
                 [DefineEngine (Some Scenario.engine);
                  InvokeGlobal "onRecaptchaLoadCallback";
                  ScriptLoad 0; EngineReady] in
      renders s = [Render None (default_params "abc")]
      /\ clientId s = IdNum 0
      /\ executeRecaptcha s (Some "login")
         = Scenario.execute (IdNum 0) (Some "login"))
  /\ ~ implicit_callback_is_inert Scenario.A Scenario.engine.
Proof.
  split; [reflexivity|]. split.
  - vm_compute. repeat split.
  - intros H. destruct (H eq_refl) as [Hr _]. vm_compute in Hr. discriminate Hr.
Qed.








(** C5 (amended). Every teardown after an effect run with a non-empty key,
    at unmount or before the effect re-runs, calls [cleanGoogleRecaptcha]
    once with the script id and the container element, after which no
    script tag with that id is left. The global callback slot is not
    cleared: it still holds the callback registered under the configured
    name. *)
Theorem teardown_removes_script_keeps_callback p s :
  reCaptchaKey p <> EmptyString ->
  mounted s = true ->
  let s1 := effect p s in
  let s2 := run_cleanup s1 in
  unmount s1 = with_mounted false s2
  /\ (forall p', deps_of p' <> deps_of p -> rerender p' s1 = effect p' s2)
  /\ log s2 = log s1 ++ [Clean (scriptId_of p) (container_element (container p))]
  /\ (forall t, In t (scripts s2) -> tag_id t <> scriptId_of p)
  /\ window_callbacks s2 !! onLoadCallbackName_of p = Some (global_callback_of p).
Proof.
  intros Hkey Hm s1 s2. apply truthy_string_true in Hkey.
  destruct (effect_with_key p s Hkey) as (Hw & _ & _ & _ & Hd & _ & _ & _ & Hm1).
  fold s1 in Hw, Hd, Hm1. rewrite Hm in Hm1.
  destruct (run_cleanup_after_effect p s Hkey) as (Hl & Ht & Hw2 & _).
  fold s1 in Hl, Ht, Hw2. fold s2 in Hl, Ht, Hw2.
  split; [|split; [|split; [|split]]].
  - unfold unmount. by rewrite Hm1.
  - intros p' Hne. unfold rerender. rewrite Hm1, Hd. cbn.
    rewrite deps_eqb_neq by congruence. done.
  - exact Hl.
  - exact Ht.
  - rewrite Hw2, Hw. apply lookup_insert_eq.
Qed.

Lemma teardown_removes_script_keeps_callback_witness :
  let s := run (mount Scenario.B) [Unmount] in
  log s = [Inject (inject_args_of Scenario.B);
           Clean "google-recaptcha-v3" (Some (Selector "#box"))]
  /\ window_callbacks s !! "onRecaptchaLoadCallback"
     = Some (global_callback_of Scenario.B).
Proof.
  pose proof (teardown_removes_script_keeps_callback Scenario.B (fresh Scenario.B))
    as H.
  destruct H as (Hu & _ & Hl & _ & Hw).
  - discriminate.
  - reflexivity.
  - cbn zeta. change (run (mount Scenario.B) [Unmount])
      with (unmount (effect Scenario.B (fresh Scenario.B))).
    rewrite Hu. split; [exact Hl|exact Hw].
Defined.

(** C5 as stated fails: after mounting with key "abc" and unmounting, the
    script tag is gone but the slot [onRecaptchaLoadCallback] still holds
    the callback of the torn-down mount. *)
Lemma teardown_leaves_callback_slot :
  (let s := run (mount Scenario.A) [Unmount] in
   scripts s = []
   /\ window_callbacks s !! "onRecaptchaLoadCallback"
      = Some (global_callback_of Scenario.A))
  /\ ~ teardown_clears_callback Scenario.A.
Proof.
  split.
  - vm_compute. split; reflexivity.
  - intros [_ H]. vm_compute in H. discriminate H.
Qed.

(** C6 (amended). A teardown and a fresh run of the effect are triggered
    exactly when one of the effect's dependencies changes: the two flags,
    the JSON serialization of the script options, the JSON serialization of
    the render parameters, the language, the key, the mount element. Props
    with the same dependencies (fresh literals with the same contents, or
    other children) change nothing. Between two configurations with a key,
    a changed dependency gives exactly one teardown followed by exactly one
    injection; when the new key is empty the teardown is followed by the
    warning instead. A render parameter that is a function is left out of
    the serialization, so replacing a container callback is no change of
    dependency. *)
Theorem restart_iff_dependency_changed p p' s0 :
  reCaptchaKey p <> EmptyString ->
  mounted s0 = true ->
  let s := effect p s0 in
  (deps_of p' = deps_of p -> rerender p' s = s)
  /\ (deps_of p' <> deps_of p -> reCaptchaKey p' <> EmptyString ->
      log (rerender p' s)
      = log s ++ [Clean (scriptId_of p) (container_element (container p));
                  Inject (inject_args_of p')])
  /\ (deps_of p' <> deps_of p -> reCaptchaKey p' = EmptyString ->
      log (rerender p' s)
      = log s ++ [Clean (scriptId_of p) (container_element (container p));
                  Warn key_missing_warning])
  /\ (forall n, deps_of (with_children n p) = deps_of p)
  /\ (forall o k f f',
         deps_of (with_parameters (Js.set o k (Js.VFun f)) p)
         = deps_of (with_parameters (Js.set o k (Js.VFun f')) p)).
Proof.
  intros Hkey Hm s. apply truthy_string_true in Hkey.
  destruct (effect_with_key p s0 Hkey) as (_ & _ & _ & _ & Hd & _ & _ & _ & Hm1).
  fold s in Hd, Hm1. rewrite Hm in Hm1.
  destruct (run_cleanup_after_effect p s0 Hkey) as (Hl & _).
  fold s in Hl.
  assert (forall q, deps_of q <> deps_of p -> rerender q s = effect q (run_cleanup s))
    as Hre.
  { intros q Hne. unfold rerender. rewrite Hm1, Hd. cbn.
    rewrite deps_eqb_neq by congruence. done. }
  split; [|split; [|split; [|split]]].
  - intros Heq. unfold rerender. rewrite Hm1, Hd, Heq. cbn.
    by rewrite (proj2 (deps_eqb_eq _ _) eq_refl).
  - intros Hne Hkey'. apply truthy_string_true in Hkey'.
    rewrite (Hre p' Hne).
    destruct (effect_with_key p' (run_cleanup s) Hkey') as (_ & _ & -> & _).
    rewrite Hl, <- app_assoc. done.
  - intros Hne Hkey'. apply truthy_string_false in Hkey'.
    rewrite (Hre p' Hne).
    destruct (effect_without_key p' (run_cleanup s) Hkey') as (_ & _ & -> & _).
    rewrite Hl, <- app_assoc. done.
  - done.
  - intros o k f f'. unfold deps_of. cbn. unfold Js.stringify_obj.
    by rewrite (members_set_function o k f f').
Qed.

Lemma restart_iff_dependency_changed_witness :
  rerender (with_children 7 Scenario.B) (mount Scenario.B) = mount Scenario.B
  /\ log (rerender Scenario.A (mount Scenario.B))
     = log (mount Scenario.B)
       ++ [Clean "google-recaptcha-v3" (Some (Selector "#box"));
           Inject (inject_args_of Scenario.A)].
Proof.
  split.
  - apply (proj1 (restart_iff_dependency_changed Scenario.B
                    (with_children 7 Scenario.B) (fresh Scenario.B)
                    ltac:(discriminate) eq_refl)).
    reflexivity.
  - apply (proj1 (proj2 (restart_iff_dependency_changed Scenario.B
                    Scenario.A (fresh Scenario.B)
                    ltac:(discriminate) eq_refl))).
    + intros H. apply (f_equal dep_element) in H. discriminate H.
    + discriminate.
Defined.

(** C6 as stated fails: replacing the container's success callback (the
    function 1 by the function 2) changes a tracked field, but both
    parameter records serialize to the same JSON, so the re-render changes
    nothing: no teardown, no injection. *)
Lemma callback_change_triggers_no_restart :
  container (Scenario.B_callback 1) <> container (Scenario.B_callback 2)
  /\ Js.stringify (container_parameters (container (Scenario.B_callback 1)))
     = Js.stringify (container_parameters (container (Scenario.B_callback 2)))
  /\ rerender (Scenario.B_callback 2) (mount (Scenario.B_callback 1))
     = mount (Scenario.B_callback 1)
  /\ ~ restarts_once (Scenario.B_callback 1) (Scenario.B_callback 2).
Proof.
  split; [discriminate|]. split; [reflexivity|]. split.
  - vm_compute. reflexivity.
  - intros H. vm_compute in H. apply (f_equal (@length IO)) in H. discriminate H.
Qed.

(** Key order is part of the serialization: the same script options
    written in another order do restart the effect. *)
Example reordered_options_restart :
  let o1 := [("id", Js.VStr "tag"); ("nonce", Js.VStr "n")] in
  let o2 := [("nonce", Js.VStr "n"); ("id", Js.VStr "tag")] in
  let p o := {| reCaptchaKey := "abc"; language := None;
                useRecaptchaNet := None; useEnterprise := None;
                scriptProps := Some o; container := None; children := 0 |} in
  (forall k, Js.get o1 k = Js.get o2 k)
  /\ log (rerender (p o2) (mount (p o1)))
     = [Inject (inject_args_of (p o1)); Clean "tag" None;
        Inject (inject_args_of (p o2))].
Proof.
  split.
  - intros k. cbv [Js.get].
    destruct (String.eqb "id" k) eqn:E; destruct (String.eqb "nonce" k) eqn:E';
      try reflexivity.
    apply String.eqb_eq in E. apply String.eqb_eq in E'. congruence.
  - vm_compute. reflexivity.
Qed.

Lemma rerender_promise p s :
  greCaptchaInstancePromise (rerender p s) = greCaptchaInstancePromise s
  \/ (greCaptchaInstancePromise s = Pending
      /\ reCaptchaKey p = EmptyString
      /\ greCaptchaInstancePromise (rerender p s) = Fulfilled None).
Proof.
  unfold rerender.
  destruct (negb (mounted s)); [by left|].
  destruct (deps_eqb _ _); [by left|].
  destruct (Js.truthy_string (reCaptchaKey p)) eqn:Hkey.
  - left. destruct (effect_with_key p (run_cleanup s) Hkey)
      as (_ & _ & _ & _ & _ & -> & _).
    unfold run_cleanup. split_cases; done.
  - destruct (effect_without_key p (run_cleanup s) Hkey)
      as (_ & _ & _ & _ & _ & -> & _).
    assert (greCaptchaInstancePromise (run_cleanup s) = greCaptchaInstancePromise s)
      as -> by (unfold run_cleanup; split_cases; done).
    destruct (greCaptchaInstancePromise s) eqn:E; [right|left|left]; try done.
    by apply truthy_string_false in Hkey.
Qed.

(** C7. The deferred value lives in a ref of the mount: a re-render never
    replaces it, it can only resolve it (to null, when pending and the new
    key is empty). Once it holds a value, no event of the same mount changes
    it, a reconfiguration included; if that value is null, every later
    [executeRecaptcha] is rejected with the "not loaded" error, whatever
    loads afterwards. *)
Theorem first_resolution_is_final p es1 es2 v :
  greCaptchaInstancePromise (run (mount p) es1) = Fulfilled v ->
  greCaptchaInstancePromise (run (mount p) (es1 ++ es2)) = Fulfilled v
  /\ (v = None ->
      forall action,
        executeRecaptcha (run (mount p) (es1 ++ es2)) action
        = Rejected not_loaded_error)
  /\ (forall p' s,
         greCaptchaInstancePromise (rerender p' s) = greCaptchaInstancePromise s
         \/ (greCaptchaInstancePromise s = Pending
             /\ reCaptchaKey p' = EmptyString
             /\ greCaptchaInstancePromise (rerender p' s) = Fulfilled None)).
Proof.
  intros H.
  assert (greCaptchaInstancePromise (run (mount p) (es1 ++ es2)) = Fulfilled v)
    as H2 by (rewrite run_app; by apply run_keeps_fulfilled).
  split; [exact H2|]. split.
  - intros -> action. by apply executeRecaptcha_null.
  - intros p' s. apply rerender_promise.
Qed.

Lemma first_resolution_is_final_witness :
  executeRecaptcha
    (run (mount Scenario.C)
       ([] ++ [Rerender Scenario.A; DefineEngine (Some Scenario.engine);
               ScriptLoad 0; EngineReady]))
    (Some "login")
  = Rejected not_loaded_error.
Proof.
  apply (proj1 (proj2 (first_resolution_is_final Scenario.C []
           [Rerender Scenario.A; DefineEngine (Some Scenario.engine);
            ScriptLoad 0; EngineReady] None eq_refl))).
  reflexivity.
Defined.

(** C8. In every run of a mount the deferred value is never rejected and
    is resolved at most once: resolving a pending value sets it and resumes
    every suspended caller with it, resolving again is a no-op, and a value
    once set stays. While it is pending no call has finished; once it holds
    a value no caller is suspended and every finished call, whether it
    started before or after, observed that same value. No call is lost. *)
Theorem deferred_resolves_once_for_all_callers p es :
  let s := run (mount p) es in
  (forall r, greCaptchaInstancePromise s <> Rejected r)
  /\ (greCaptchaInstancePromise s = Pending -> completed s = [])
  /\ (forall v, greCaptchaInstancePromise s = Fulfilled v ->
        waiting s = []
        /\ Forall (fun c => c_observed c = v) (completed s))
  /\ calls_tracked s = calls_made es
  /\ (forall v, greCaptchaInstancePromise s = Pending ->
        greCaptchaInstancePromise (resolve v s) = Fulfilled v
        /\ waiting (resolve v s) = []
        /\ completed (resolve v s) = map (complete v (clientId s)) (waiting s))
  /\ (forall v w, resolve w (resolve v s) = resolve v s)
  /\ (forall v es', greCaptchaInstancePromise s = Fulfilled v ->
        greCaptchaInstancePromise (run s es') = Fulfilled v).
Proof.
  intros s.
  assert (latch_inv s) as Hinv.
  { apply run_invariant; [apply latch_inv_step|apply latch_inv_mount]. }
  unfold latch_inv in Hinv.
  repeat split.
  - intros r E. by rewrite E in Hinv.
  - intros E. by rewrite E in Hinv.
  - rewrite H in Hinv. apply Hinv.
  - rewrite H in Hinv. apply Hinv.
  - subst s. rewrite calls_tracked_run.
    unfold calls_tracked, mount, effect, resolve.
    destruct (negb _); cbn; lia.
  - by apply resolve_pending.
  - unfold resolve. by rewrite H.
  - unfold resolve. rewrite H. cbn. rewrite H in Hinv. by rewrite Hinv.
  - intros v w. unfold resolve at 1.
    destruct (greCaptchaInstancePromise (resolve v s)) eqn:E; try done.
    unfold resolve in E. destruct (greCaptchaInstancePromise s) eqn:E'; cbn in E;
      congruence.
  - intros v es' E. by apply run_keeps_fulfilled.
Qed.

Lemma deferred_resolves_once_for_all_callers_witness :
  let s := run (mount Scenario.A)
             [Call (Some "first"); Call (Some "second");
              DefineEngine (Some Scenario.engine); ScriptLoad 0; EngineReady;
              ScriptError 0; Call (Some "third")] in
  waiting s = []
  /\ Forall (fun c => c_observed c = Some Scenario.grecaptcha) (completed s)
  /\ length (completed s) = 3.
Proof.
  pose proof (deferred_resolves_once_for_all_callers Scenario.A
    [Call (Some "first"); Call (Some "second");
     DefineEngine (Some Scenario.engine); ScriptLoad 0; EngineReady;
     ScriptError 0; Call (Some "third")]) as H.
  destruct H as (_ & _ & H & _).
  destruct (H (Some Scenario.grecaptcha) eq_refl) as [Hw Hc].
  cbn zeta. split; [exact Hw|]. split; [exact Hc|]. reflexivity.
Defined.

(** C9. Outside any mount the context's [executeRecaptcha] throws the
    configuration error at once, returning no promise that could hang.
    Inside a mount that obtained no engine handle (the deferred value is
    null, or an object without [execute]) the returned promise is rejected
    with the "not loaded" error. Neither is a logged warning: a call writes
    nothing to the log. *)
Theorem misuse_fails_loudly :
  (forall action,
      context_executeRecaptcha None action
      = Throws context_not_implemented_error)
  /\ (forall s action,
         greCaptchaInstancePromise s = Fulfilled None ->
         context_executeRecaptcha (Some s) action
         = Returns (Rejected not_loaded_error))
  /\ (forall s grecaptcha action,
         greCaptchaInstancePromise s = Fulfilled (Some grecaptcha) ->
         ns_execute grecaptcha = None ->
         context_executeRecaptcha (Some s) action
         = Returns (Rejected not_loaded_error))
  /\ (forall s action, log (call action s) = log s).
Proof.
  repeat split.
  - intros s action H. cbn. by rewrite executeRecaptcha_null.
  - intros s grecaptcha action H E. cbn.
    unfold executeRecaptcha, executeRecaptcha_after_await. by rewrite H, E.
  - intros s action. unfold call. split_cases; done.
Qed.

Lemma misuse_fails_loudly_witness :
  context_executeRecaptcha (Some (run (mount Scenario.A) [ScriptError 0]))
    (Some "login")
  = Returns (Rejected not_loaded_error).
Proof.
  apply (proj1 (proj2 misuse_fails_loudly)). reflexivity.
Defined.

(** C10. The parameters that the global callback passes to [render] are
    the defaults [badge: 'inline'], [size: 'invisible'], [sitekey: key]
    overlaid with the container parameters: a property supplied by the
    caller wins, any other keeps its default. The callback registered for
    the props takes the enterprise namespace exactly when their enterprise
    flag is set: with [useEnterprise] true it calls [render] of
    [grecaptcha.enterprise] (and fails with a TypeError, rendering nothing,
    when the engine has no such member), with [useEnterprise] false or left
    out it calls [render] of [grecaptcha] itself; in both cases with the
    mount element and these parameters, storing the handle it gets. *)
Theorem render_params_and_namespace :
  (forall key, default_params key
               = [("badge", Js.VStr "inline"); ("size", Js.VStr "invisible");
                  ("sitekey", Js.VStr key)])
  /\ (forall key c k,
         NoDup (default [] (container_parameters c)).*1 ->
         Js.get (render_params key c) k
         = match Js.get (default [] (container_parameters c)) k with
           | Some v => Some v
           | None => Js.get (default_params key) k
           end)
  /\ (forall p s g,
         reCaptchaKey p <> EmptyString ->
         window_grecaptcha s = Some g ->
         let s1 := effect p s in
         let s2 := step s1 (InvokeGlobal (onLoadCallbackName_of p)) in
         let el := container_element (container p) in
         let params := render_params (reCaptchaKey p) (container p) in
         (useEnterprise p = Some true ->
          forall enterprise_namespace,
            enterprise g = Some enterprise_namespace ->
            log s2 = log s1 ++ [Render el params]
            /\ clientId s2
               = ns_render enterprise_namespace (length (renders s1)) el params)
         /\ (useEnterprise p = Some true ->
             enterprise g = None ->
             log s2 = log s1 ++ [Uncaught "TypeError"]
             /\ clientId s2 = clientId s1)
         /\ (useEnterprise p <> Some true ->
             log s2 = log s1 ++ [Render el params]
             /\ clientId s2
                = ns_render (standard g) (length (renders s1)) el params)).
Proof.
  split; [done|]. split.
  - intros key c k Hnd. unfold render_params. by apply get_spread.
  - intros p s g Hkey Hg s1 s2 el params. apply truthy_string_true in Hkey.
    split; [|split].
    + intros Hu ns Hns.
      apply (invoke_registered_callback p s g ns Hkey Hg).
      by rewrite select_namespace_flag, Hu.
    + intros Hu Hns. subst s1 s2. cbn.
      destruct (effect_with_key p s Hkey) as (-> & _ & _ & _ & _ & _ & Hg' & _).
      rewrite lookup_insert_eq. unfold onLoadCallback.
      rewrite Hg', Hg. cbn. rewrite select_namespace_flag, Hu, Hns. done.
    + intros Hu.
      apply (invoke_registered_callback p s g (standard g) Hkey Hg).
      rewrite select_namespace_flag. by destruct (useEnterprise p) as [[]|].
Qed.

Lemma render_params_and_namespace_witness :
  let c := Some {| element := Some (Selector "#box");
                   parameters := [("badge", Js.VStr "bottomleft");
                                  ("theme", Js.VStr "dark")] |} in
  let s1 := effect (Scenario.enterprise_props c)
              (with_window_grecaptcha (Some Scenario.enterprise_engine)
                 (fresh (Scenario.enterprise_props c))) in
  let s2 := step s1 (InvokeGlobal "onRecaptchaLoadCallback") in
  Js.get (render_params "abc" c) "badge" = Some (Js.VStr "bottomleft")
  /\ log s2
     = log s1
       ++ [Render (Some (Selector "#box"))
             [("badge", Js.VStr "bottomleft"); ("size", Js.VStr "invisible");
              ("sitekey", Js.VStr "abc"); ("theme", Js.VStr "dark")]]
  /\ clientId s2 = IdNum 100.
Proof.
  cbn zeta. split.
  - apply (proj1 (proj2 render_params_and_namespace) "abc"
             (Some {| element := Some (Selector "#box");
                      parameters := [("badge", Js.VStr "bottomleft");
                                     ("theme", Js.VStr "dark")] |}) "badge").
    cbn. apply NoDup_cons. split.
    + intros H. apply list_elem_of_singleton in H. discriminate H.
    + apply NoDup_singleton.
  - refine (proj1 (proj2 (proj2 render_params_and_namespace)
             (Scenario.enterprise_props
                (Some {| element := Some (Selector "#box");
                         parameters := [("badge", Js.VStr "bottomleft");
                                        ("theme", Js.VStr "dark")] |}))
             (with_window_grecaptcha (Some Scenario.enterprise_engine)
                (fresh (Scenario.enterprise_props
                   (Some {| element := Some (Selector "#box");
                            parameters := [("badge", Js.VStr "bottomleft");
                                           ("theme", Js.VStr "dark")] |}))))
             Scenario.enterprise_engine _ _) eq_refl
             Scenario.enterprise_grecaptcha eq_refl).
    + discriminate.
    + reflexivity.
Defined.

(** * Further properties *)

(** ** The context value *)

Lemma next_context_container p c :
  ctx_container (next_context p c) = container_element (container p).
Proof.
  unfold next_context.
  destruct (option_eqb Element_eqb _ _) eqn:E; [|done].
  by apply (option_eqb_eq Element_eqb Element_eqb_eq) in E.
Qed.

Lemma context_after_snoc p0 ps p :
  context_after p0 (ps ++ [p]) = next_context p (context_after p0 ps).
Proof. unfold context_after. by rewrite fold_left_app. Qed.

Lemma fold_next_context_identity ps : forall c,
  ctx_identity (fold_left (fun c p => next_context p c) ps c)
  = ctx_identity c + element_changes (ctx_container c) ps.
Proof.
  induction ps as [|p ps IH]; intros c; cbn; [lia|].
  rewrite IH, next_context_container. unfold next_context.
  destruct (option_eqb Element_eqb _ _); cbn; lia.
Qed.

(** X1. Consumers always read the mount element of the latest render from
    the context, and the context object is replaced exactly as often as the
    element changes from one render to the next: a render that changes the
    key, the options or the render parameters but not the element hands
    out the very same object. *)
Theorem context_follows_element p0 ps :
  ctx_container (context_after p0 ps)
  = container_element (container (List.last ps p0))
  /\ ctx_identity (context_after p0 ps)
     = element_changes (container_element (container p0)) ps
  /\ (forall p,
         container_element (container p)
         = container_element (container (List.last ps p0)) ->
         context_after p0 (ps ++ [p]) = context_after p0 ps).
Proof.
  assert (ctx_container (context_after p0 ps)
          = container_element (container (List.last ps p0))) as Hc.
  { induction ps as [|p ps IH] using rev_ind; [done|].
    by rewrite context_after_snoc, next_context_container, List.last_last. }
  split; [exact Hc|]. split.
  - unfold context_after. by rewrite fold_next_context_identity.
  - intros p Hp. rewrite context_after_snoc. unfold next_context.
    rewrite Hc, <- Hp.
    by rewrite (proj2 (option_eqb_eq Element_eqb Element_eqb_eq _ _) eq_refl).
Qed.

Lemma context_follows_element_witness :
  context_after Scenario.B [Scenario.B_callback 1; with_children 3 (Scenario.B_callback 1)]
  = context_after Scenario.B [Scenario.B_callback 1].
Proof.
  apply (proj2 (proj2 (context_follows_element Scenario.B [Scenario.B_callback 1]))
           (with_children 3 (Scenario.B_callback 1))).
  reflexivity.
Defined.

(** ** What the events leave alone *)

Lemma fire_ready_frame q : forall s,
  log (fire_ready q s) = log s
  /\ clientId (fire_ready q s) = clientId s
  /\ scripts (fire_ready q s) = scripts s
  /\ window_callbacks (fire_ready q s) = window_callbacks s
  /\ effect_cleanup (fire_ready q s) = effect_cleanup s.
Proof.
  induction q as [|k q IH]; intros s; [done|].
  change (fire_ready (k :: q) s) with (fire_ready q (onReady k s)).
  destruct (IH (onReady k s)) as (-> & -> & -> & -> & ->).
  unfold onReady.
  destruct (resolve_frame (Some k) s) as (? & ? & ? & ? & _ & _ & _ & ? & _).
  done.
Qed.

(** The log only grows. *)
Lemma step_log_grows s e : exists l, log (step s e) = log s ++ l.
Proof.
  destruct e; cbn.
  - unfold rerender. destruct (negb (mounted s)); [by exists []; rewrite app_nil_r|].
    destruct (deps_eqb _ _); [by exists []; rewrite app_nil_r|].
    unfold effect, run_cleanup, logWarningMessage, cleanGoogleRecaptcha,
      injectGoogleReCaptchaScript.
    destruct (negb (Js.truthy_string (reCaptchaKey p)));
      destruct (effect_cleanup s) as [[i el]|]; cbn;
      rewrite ?(proj1 (proj2 (resolve_frame _ _))); cbn;
      rewrite <- ?app_assoc; eauto.
  - unfold unmount, run_cleanup, cleanGoogleRecaptcha.
    destruct (negb (mounted s)); [by exists []; rewrite app_nil_r|].
    destruct (effect_cleanup s) as [[i el]|]; cbn; [eauto|].
    by exists []; rewrite app_nil_r.
  - by exists []; rewrite app_nil_r.
  - destruct (window_callbacks s !! name); [|by exists []; rewrite app_nil_r].
    unfold onLoadCallback. split_cases; eauto.
  - destruct (scripts s !! i); [|by exists []; rewrite app_nil_r].
    unfold onLoad, logWarningMessage. split_cases;
      rewrite ?(proj1 (proj2 (resolve_frame _ _))); cbn; eauto.
    by exists []; rewrite app_nil_r.
  - destruct (scripts s !! i); [|by exists []; rewrite app_nil_r].
    unfold onError, logWarningMessage.
    rewrite (proj1 (proj2 (resolve_frame _ _))). cbn. eauto.
  - exists []. rewrite app_nil_r.
    exact (proj1 (fire_ready_frame (ready_callbacks s) (with_ready_callbacks [] s))).
  - exists []. rewrite app_nil_r. unfold call. split_cases; done.
Qed.

Lemma renders_app s l : forall s', log s' = log s ++ l ->
  renders s' = renders s ++ List.filter is_Render l.
Proof. intros s' H. unfold renders. by rewrite H, List.filter_app. Qed.

Lemma step_keeps_identifier_without_render s e k :
  (renders s = [] -> clientId s = k) ->
  renders (step s e) = [] -> clientId (step s e) = k.
Proof.
  intros H Hr.
  destruct (step_log_grows s e) as [l Hl].
  rewrite (renders_app s l _ Hl) in Hr. apply app_eq_nil in Hr as [Hr0 Hr1].
  destruct (is_InvokeGlobal e) eqn:E.
  - destruct e; try discriminate E. cbn in *.
    destruct (window_callbacks s !! name); [|by apply H].
    unfold onLoadCallback in *.
    destruct (window_grecaptcha s) as [g0|]; [|by apply H].
    destruct (select_namespace _ g0); [|by apply H].
    cbn in Hl. apply app_inv_head in Hl. subst l. discriminate Hr1.
  - rewrite step_clientId by done. by apply H.
Qed.

(** X2. The widget identifier is the site key of the first render until a
    render call has really been made: whatever happens in a mount
    (reconfigurations to another key and global callbacks that fail for want
    of an engine included), as long as the log holds no render call. *)
Theorem identifier_is_first_key_until_render p es :
  renders (run (mount p) es) = [] ->
  clientId (run (mount p) es) = IdStr (reCaptchaKey p).
Proof.
  revert es. induction es as [|e es IH] using rev_ind.
  - intros _. apply mount_clientId.
  - rewrite run_app. cbn. apply step_keeps_identifier_without_render.
    exact IH.
Qed.

Lemma identifier_is_first_key_until_render_witness :
  clientId (run (mount Scenario.A)
              [InvokeGlobal "onRecaptchaLoadCallback"; Rerender Scenario.C;
               Rerender (Scenario.props "xyz" None)])
  = IdStr "abc".
Proof.
  apply (identifier_is_first_key_until_render Scenario.A
           [InvokeGlobal "onRecaptchaLoadCallback"; Rerender Scenario.C;
            Rerender (Scenario.props "xyz" None)]).
  reflexivity.
Defined.

(** ** Calls while nothing resolves *)

Lemma passive_step_waiting s e :
  passive e ->
  greCaptchaInstancePromise s = Pending ->
  waiting (step s e) = waiting s ++ called_actions [e]
  /\ completed (step s e) = completed s.
Proof.
  intros He Hp. destruct e; cbn in *; try contradiction.
  - by rewrite app_nil_r.
  - rewrite app_nil_r. destruct (window_callbacks s !! name); [|done].
    unfold onLoadCallback. split_cases; done.
  - unfold call. rewrite Hp. done.
Qed.

Lemma called_actions_app es1 es2 :
  called_actions (es1 ++ es2) = called_actions es1 ++ called_actions es2.
Proof.
  induction es1 as [|e es1 IH]; [done|].
  destruct e; cbn; by rewrite ?IH.
Qed.

Lemma passive_run_waiting es : forall s,
  Forall passive es ->
  greCaptchaInstancePromise s = Pending ->
  greCaptchaInstancePromise (run s es) = Pending
  /\ waiting (run s es) = waiting s ++ called_actions es
  /\ completed (run s es) = completed s.
Proof.
  induction es as [|e es IH]; intros s H Hp.
  - cbn. by rewrite app_nil_r.
  - apply Forall_cons in H as [He Hes]. rewrite run_cons.
    destruct (passive_step_frame s e He) as (Hp' & _).
    destruct (passive_step_waiting s e He Hp) as (Hw & Hc).
    rewrite Hp in Hp'.
    destruct (IH (step s e) Hes Hp') as (-> & -> & ->).
    rewrite Hw, Hc, <- app_assoc.
    change (e :: es) with ([e] ++ es). by rewrite called_actions_app.
Qed.

Lemma called_actions_calls actions : called_actions (map Call actions) = actions.
Proof. induction actions as [|a l IH]; cbn; by rewrite ?IH. Qed.

Lemma Forall_passive_calls actions : Forall passive (map Call actions).
Proof. induction actions; cbn; by constructor. Qed.

(** X3. With a non-empty key, until a load event, an error event or a
    ready signal comes, every call of [executeRecaptcha] stays suspended:
    the promise is pending, the callers wait in the order of their calls,
    none has finished and a new call would be pending too. There is no
    timeout. *)
Theorem calls_wait_until_a_resolver_fires p es :
  reCaptchaKey p <> EmptyString ->
  Forall passive es ->
  let s := run (mount p) es in
  greCaptchaInstancePromise s = Pending
  /\ waiting s = called_actions es
  /\ completed s = []
  /\ forall action, executeRecaptcha s action = Pending.
Proof.
  intros Hkey Hes s. apply truthy_string_true in Hkey.
  destruct (mount_loading p Hkey) as (Hp & _).
  destruct (passive_run_waiting es (mount p) Hes Hp) as (Hp' & Hw & Hc).
  assert (waiting (mount p) = [] /\ completed (mount p) = []) as [Hw0 Hc0].
  { unfold mount, effect. rewrite Hkey. done. }
  rewrite Hw0 in Hw. rewrite Hc0 in Hc.
  repeat split; try done.
  intros action. subst s. unfold executeRecaptcha. by rewrite Hp'.
Qed.

Lemma calls_wait_until_a_resolver_fires_witness :
  waiting (run (mount Scenario.A)
             [Call (Some "a"); DefineEngine (Some Scenario.engine);
              Call None; InvokeGlobal "onRecaptchaLoadCallback"])
  = [Some "a"; None].
Proof.
  refine (proj1 (proj2 (calls_wait_until_a_resolver_fires Scenario.A
           [Call (Some "a"); DefineEngine (Some Scenario.engine);
            Call None; InvokeGlobal "onRecaptchaLoadCallback"] _ _))).
  - discriminate.
  - repeat constructor.
Defined.

(** ** Teardown and the suspended callers *)

Lemma run_cleanup_calls s :
  greCaptchaInstancePromise (run_cleanup s) = greCaptchaInstancePromise s
  /\ waiting (run_cleanup s) = waiting s
  /\ completed (run_cleanup s) = completed s.
Proof. unfold run_cleanup. destruct (effect_cleanup s) as [[i el]|]; done. Qed.

Lemma effect_with_key_calls p s :
  Js.truthy_string (reCaptchaKey p) = true ->
  greCaptchaInstancePromise (effect p s) = greCaptchaInstancePromise s
  /\ waiting (effect p s) = waiting s
  /\ completed (effect p s) = completed s.
Proof. intros H. unfold effect. rewrite H. done. Qed.

(** X4. Teardown settles nothing: neither unmounting nor the restart for
    another non-empty key resolves or rejects the deferred value, and the
    callers suspended on it stay suspended. Callers that were waiting when a
    loading mount is unmounted are all still waiting afterwards. *)
Theorem teardown_leaves_callers_suspended :
  (forall s,
      greCaptchaInstancePromise (unmount s) = greCaptchaInstancePromise s
      /\ waiting (unmount s) = waiting s
      /\ completed (unmount s) = completed s)
  /\ (forall p' s,
         reCaptchaKey p' <> EmptyString ->
         greCaptchaInstancePromise (rerender p' s) = greCaptchaInstancePromise s
         /\ waiting (rerender p' s) = waiting s
         /\ completed (rerender p' s) = completed s)
  /\ (forall p actions,
         reCaptchaKey p <> EmptyString ->
         let s := run (mount p) (map Call actions ++ [Unmount]) in
         greCaptchaInstancePromise s = Pending
         /\ waiting s = actions
         /\ completed s = []).
Proof.
  split; [|split].
  - intros s. unfold unmount. destruct (negb (mounted s)); [done|].
    apply (run_cleanup_calls s).
  - intros p' s Hkey. apply truthy_string_true in Hkey.
    unfold rerender. destruct (negb (mounted s)); [done|].
    destruct (deps_eqb _ _); [done|].
    destruct (effect_with_key_calls p' (run_cleanup s) Hkey) as (-> & -> & ->).
    apply run_cleanup_calls.
  - intros p actions Hkey s. subst s. rewrite run_app. cbn.
    apply truthy_string_true in Hkey.
    destruct (mount_loading p Hkey) as (Hp & _).
    destruct (passive_run_waiting (map Call actions) (mount p)
                (Forall_passive_calls actions) Hp) as (Hp' & Hw & Hc).
    assert (waiting (mount p) = [] /\ completed (mount p) = []) as [Hw0 Hc0].
    { unfold mount, effect. rewrite Hkey. done. }
    rewrite Hw0, called_actions_calls in Hw. rewrite Hc0 in Hc.
    set (s1 := run (mount p) (map Call actions)) in *.
    unfold unmount. destruct (negb (mounted s1)); [done|].
    destruct (run_cleanup_calls s1) as (E1 & E2 & E3).
    cbn. by rewrite E1, E2, E3.
Qed.

Lemma teardown_leaves_callers_suspended_witness :
  waiting (rerender Scenario.B
             (run (mount Scenario.A) [Call (Some "a"); Call (Some "b")]))
  = [Some "a"; Some "b"].
Proof.
  refine (proj1 (proj2 (proj1 (proj2 teardown_leaves_callers_suspended)
           Scenario.B (run (mount Scenario.A) [Call (Some "a"); Call (Some "b")]) _))).
  discriminate.
Defined.

(** ** Calls change nothing but the calls *)

Lemma call_frame a s :
  greCaptchaInstancePromise (call a s) = greCaptchaInstancePromise s
  /\ clientId (call a s) = clientId s
  /\ log (call a s) = log s
  /\ scripts (call a s) = scripts s
  /\ window_callbacks (call a s) = window_callbacks s
  /\ window_grecaptcha (call a s) = window_grecaptcha s
  /\ ready_callbacks (call a s) = ready_callbacks s
  /\ effect_cleanup (call a s) = effect_cleanup s
  /\ effect_deps (call a s) = effect_deps s
  /\ mounted (call a s) = mounted s.
Proof. unfold call. destruct (greCaptchaInstancePromise s) eqn:E; cbn; by rewrite ?E. Qed.

(** X5. Calling [executeRecaptcha], any number of times and at any time,
    neither injects a script, nor logs, nor resolves the deferred value, nor
    changes the identifier or the global scope: the calls leave everything
    but the record of the calls as it was, so that a later call gets what it
    would have got without them. *)
Theorem calls_have_no_side_effect s actions :
  let s' := run s (map Call actions) in
  greCaptchaInstancePromise s' = greCaptchaInstancePromise s
  /\ clientId s' = clientId s
  /\ log s' = log s
  /\ scripts s' = scripts s
  /\ window_callbacks s' = window_callbacks s
  /\ window_grecaptcha s' = window_grecaptcha s
  /\ ready_callbacks s' = ready_callbacks s
  /\ effect_cleanup s' = effect_cleanup s
  /\ (forall action, executeRecaptcha s' action = executeRecaptcha s action)
  /\ calls_tracked s' = calls_tracked s + length actions.
Proof.
  revert s. induction actions as [|a l IH]; intros s.
  - cbn. repeat split; try done; unfold calls_tracked; lia.
  - cbn [map]. rewrite run_cons. cbn [step].
    destruct (IH (call a s)) as (-> & -> & -> & -> & -> & -> & -> & -> & Hx & Hn).
    destruct (call_frame a s) as (Hp & Hc & -> & -> & -> & -> & -> & -> & _).
    rewrite Hp, Hc. repeat split; try done.
    + intros action. rewrite Hx. unfold executeRecaptcha. by rewrite Hp, Hc.
    + rewrite Hn. pose proof (calls_tracked_step s (Call a)) as Hs.
      cbn in Hs. rewrite Hs. cbn. lia.
Qed.

(** ** One script at a time *)

Lemma one_script_ext s s' :
  effect_cleanup s' = effect_cleanup s ->
  scripts s' = scripts s ->
  window_callbacks s' = window_callbacks s ->
  injections s' = injections s ->
  cleanups s' = cleanups s ->
  one_script s -> one_script s'.
Proof.
  unfold one_script. intros -> -> -> -> ->. done.
Qed.

Lemma counts_of_log s s' l :
  log s' = log s ++ l ->
  List.filter is_Inject l = [] -> List.filter is_Clean l = [] ->
  injections s' = injections s /\ cleanups s' = cleanups s.
Proof.
  intros H Hi Hc. unfold injections, cleanups.
  by rewrite H, !List.filter_app, Hi, Hc, !app_nil_r.
Qed.

Lemma one_script_resolve v s : one_script s -> one_script (resolve v s).
Proof.
  destruct (resolve_frame v s) as (_ & Hl & Hs & Hw & _ & _ & _ & Hc & _).
  apply one_script_ext; try done; unfold injections, cleanups; by rewrite Hl.
Qed.

Lemma one_script_emit e s :
  is_Inject e = false -> is_Clean e = false ->
  one_script s -> one_script (emit e s).
Proof.
  intros Hi Hc. apply one_script_ext; try done.
  - unfold injections. cbn. rewrite List.filter_app. cbn. rewrite Hi.
    by rewrite app_nil_r.
  - unfold cleanups. cbn. rewrite List.filter_app. cbn. rewrite Hc.
    by rewrite app_nil_r.
Qed.

(** After the cleanup there is no script and no cleanup left. *)
Lemma one_script_run_cleanup s :
  one_script s ->
  effect_cleanup (run_cleanup s) = None
  /\ scripts (run_cleanup s) = []
  /\ length (injections (run_cleanup s)) = length (cleanups (run_cleanup s))
  /\ window_callbacks (run_cleanup s) = window_callbacks s
  /\ mounted (run_cleanup s) = mounted s.
Proof.
  unfold one_script, run_cleanup.
  destruct (effect_cleanup s) as [[i el]|] eqn:E.
  - intros [(t & cb & Hs & Hid & _) Hn]. cbn.
    unfold injections, cleanups in *. cbn.
    rewrite Hs, !List.filter_app. cbn. rewrite Hid, String.eqb_refl. cbn.
    rewrite app_nil_r, length_app. cbn. repeat split; try done. lia.
  - intros [Hs Hn]. by rewrite E.
Qed.

Lemma one_script_effect p s :
  effect_cleanup s = None -> scripts s = [] ->
  length (injections s) = length (cleanups s) ->
  one_script (effect p s).
Proof.
  intros Hc Hs Hn. unfold one_script.
  destruct (Js.truthy_string (reCaptchaKey p)) eqn:Hkey.
  - destruct (effect_with_key p s Hkey) as (Hw & Hs' & Hl & -> & _).
    split.
    + exists (script_tag_of p), (global_callback_of p).
      rewrite Hs', Hs, Hw. repeat split. cbn. apply lookup_insert_eq.
    + unfold injections, cleanups in *. rewrite Hl, !List.filter_app. cbn.
      rewrite app_nil_r, length_app. cbn. lia.
  - destruct (effect_without_key p s Hkey) as (_ & Hs' & Hl & -> & _).
    split; [by rewrite Hs'|].
    unfold injections, cleanups in *. rewrite Hl, !List.filter_app. cbn.
    by rewrite !app_nil_r.
Qed.

Lemma one_script_step s e :
  one_script s /\ (mounted s = false -> effect_cleanup s = None) ->
  one_script (step s e)
  /\ (mounted (step s e) = false -> effect_cleanup (step s e) = None).
Proof.
  intros Hboth. pose proof Hboth as [H Hm]. destruct e; cbn.
  - unfold rerender. destruct (negb (mounted s)) eqn:Em; [exact Hboth|].
    apply negb_false_iff in Em.
    destruct (deps_eqb _ _); [exact Hboth|].
    destruct (one_script_run_cleanup s H) as (Hc & Hs & Hn & _ & Hm').
    split; [by apply one_script_effect|].
    intros Hf. exfalso.
    assert (mounted (effect p (run_cleanup s)) = mounted (run_cleanup s)) as Hx.
    { destruct (Js.truthy_string (reCaptchaKey p)) eqn:Hkey.
      - apply (effect_with_key p _ Hkey).
      - apply (effect_without_key p _ Hkey). }
    congruence.
  - unfold unmount. destruct (negb (mounted s)) eqn:Em; [exact Hboth|].
    destruct (one_script_run_cleanup s H) as (Hc & Hs & Hn & _ & _).
    split; [|done]. unfold one_script. cbn. rewrite Hc. done.
  - exact Hboth.
  - destruct (window_callbacks s !! name); [|exact Hboth].
    unfold onLoadCallback.
    destruct (window_grecaptcha s) as [g0|];
      [destruct (select_namespace _ g0)|]; (split; [|exact Hm]);
      by apply one_script_emit.
  - destruct (scripts s !! i); [|exact Hboth].
    unfold onLoad, logWarningMessage.
    destruct (window_grecaptcha s) as [g0|].
    + destruct (select_namespace _ g0); [exact Hboth|].
      split; [by apply one_script_emit|exact Hm].
    + split.
      * by apply one_script_resolve, one_script_emit.
      * destruct (resolve_frame None (emit (Warn script_not_available_warning) s))
          as (_ & _ & _ & _ & _ & _ & -> & -> & _). exact Hm.
  - destruct (scripts s !! i); [|exact Hboth].
    unfold onError, logWarningMessage. split.
    + by apply one_script_resolve, one_script_emit.
    + destruct (resolve_frame None (emit (Warn load_error_warning) s))
        as (_ & _ & _ & _ & _ & _ & -> & -> & _). exact Hm.
  - destruct (fire_ready_frame (ready_callbacks s) (with_ready_callbacks [] s))
      as (Hl & _ & Hs & Hw & Hc).
    split.
    + apply (one_script_ext s); try done; unfold injections, cleanups;
        by rewrite Hl.
    + rewrite Hc. cbn.
      assert (forall q x, mounted (fire_ready q x) = mounted x) as Hfm.
      { clear. induction q as [|k q IH]; intros x; [done|].
        change (fire_ready (k :: q) x) with (fire_ready q (onReady k x)).
        rewrite IH. unfold onReady. apply resolve_frame. }
      rewrite Hfm. exact Hm.
  - destruct (call_frame action s) as (_ & _ & Hl & Hs & Hw & _ & _ & Hc & _ & Hm').
    split.
    + apply (one_script_ext s); try done; unfold injections, cleanups;
        by rewrite Hl.
    + by rewrite Hm', Hc.
Qed.

Lemma one_script_run p es :
  one_script (run (mount p) es)
  /\ (mounted (run (mount p) es) = false ->
      effect_cleanup (run (mount p) es) = None).
Proof.
  apply (run_invariant
           (fun s => one_script s /\ (mounted s = false -> effect_cleanup s = None))).
  - intros s e. apply one_script_step.
  - split.
    + by apply one_script_effect.
    + intros Hm. exfalso. unfold mount in Hm.
      destruct (Js.truthy_string (reCaptchaKey p)) eqn:Hkey.
      * destruct (effect_with_key p (fresh p) Hkey) as (_ & _ & _ & _ & _ & _ & _ & _ & Hx).
        rewrite Hx in Hm. discriminate Hm.
      * destruct (effect_without_key p (fresh p) Hkey) as (_ & _ & _ & _ & _ & _ & Hx).
        rewrite Hx in Hm. discriminate Hm.
Qed.

(** X6. However a mount is reconfigured, at most one injected script is
    in the document at any time: every injection but the live one has been
    followed by its teardown, and after unmounting none is left. *)
Theorem at_most_one_script_alive p es :
  let s := run (mount p) es in
  length (scripts s) <= 1
  /\ length (injections s) = length (cleanups s) + length (scripts s)
  /\ (mounted s = false ->
      scripts s = [] /\ length (injections s) = length (cleanups s)).
Proof.
  intros s. destruct (one_script_run p es) as [H Hm]. fold s in H, Hm.
  unfold one_script in H.
  destruct (effect_cleanup s) as [[i el]|] eqn:E.
  - destruct H as [(t & cb & -> & _) Hn]. cbn.
    split; [lia|]. split; [lia|].
    intros Hf. specialize (Hm Hf). discriminate Hm.
  - destruct H as [-> Hn]. cbn.
    split; [lia|]. split; [lia|]. intros _. split; [done|lia].
Qed.

Lemma at_most_one_script_alive_witness :
  let s := run (mount Scenario.A)
             [Rerender Scenario.B; Rerender Scenario.C; Rerender Scenario.A;
              Unmount] in
  scripts s = [] /\ length (injections s) = length (cleanups s).
Proof.
  apply (proj2 (proj2 (at_most_one_script_alive Scenario.A
           [Rerender Scenario.B; Rerender Scenario.C; Rerender Scenario.A;
            Unmount]))).
  reflexivity.
Defined.

(** X7. The script in the document is always wired to this mount: the
    global slot named in its onload parameter holds a callback, that callback
    selects the same engine namespace as the tag's load handler, and the
    registered cleanup will remove this very tag. *)
Theorem script_is_wired_to_its_callback p es t :
  let s := run (mount p) es in
  In t (scripts s) ->
  exists cb el,
    window_callbacks s !! arg_onLoadCallbackName (tag_args t) = Some cb
    /\ cb_useEnterprise cb = arg_useEnterprise (tag_args t)
    /\ effect_cleanup s = Some (tag_id t, el).
Proof.
  intros s Ht. destruct (one_script_run p es) as [H _]. fold s in H.
  unfold one_script in H.
  destruct (effect_cleanup s) as [[i el]|] eqn:E.
  - destruct H as [(t' & cb & Hs & Hid & Hw & Hu) _].
    rewrite Hs in Ht. destruct Ht as [<-|[]].
    exists cb, el. by rewrite Hid.
  - destruct H as [Hs _]. rewrite Hs in Ht. destruct Ht.
Qed.

Lemma script_is_wired_to_its_callback_witness :
  exists cb el,
    window_callbacks (run (mount Scenario.A) [Rerender Scenario.B])
      !! "onRecaptchaLoadCallback" = Some cb
    /\ cb_useEnterprise cb = false
    /\ effect_cleanup (run (mount Scenario.A) [Rerender Scenario.B])
       = Some ("google-recaptcha-v3", el).
Proof.
  apply (script_is_wired_to_its_callback Scenario.A [Rerender Scenario.B]
           (script_tag_of Scenario.B)).
  left. reflexivity.
Defined.

(** ** Reconfiguration *)

Lemma rerender_restart p p' s0 :
  Js.truthy_string (reCaptchaKey p) = true ->
  mounted s0 = true ->
  deps_of p' <> deps_of p ->
  rerender p' (effect p s0) = effect p' (run_cleanup (effect p s0)).
Proof.
  intros Hkey Hm Hne.
  destruct (effect_with_key p s0 Hkey) as (_ & _ & _ & _ & Hd & _ & _ & _ & Hm1).
  unfold rerender. rewrite Hm1, Hm, Hd. cbn.
  rewrite deps_eqb_neq by congruence. done.
Qed.

Lemma run_cleanup_frame s :
  ready_callbacks (run_cleanup s) = ready_callbacks s
  /\ window_grecaptcha (run_cleanup s) = window_grecaptcha s
  /\ clientId (run_cleanup s) = clientId s.
Proof. unfold run_cleanup. destruct (effect_cleanup s) as [[i el]|]; done. Qed.




(** ** An engine without the selected namespace *)

(** X9. With the enterprise flag set and an engine that has no
    [enterprise] member, the load handler fails with a TypeError before it
    registers for the ready signal: no warning is logged, the deferred value
    is not resolved, and the callers stay suspended, also after the engine's
    ready signal. *)
Theorem missing_enterprise_namespace_hangs p g pre :
  reCaptchaKey p <> EmptyString ->
  useEnterprise p = Some true ->
  Forall passive pre ->
  window_grecaptcha (run (mount p) pre) = Some g ->
  enterprise g = None ->
  let s0 := run (mount p) pre in
  let s := run s0 [ScriptLoad 0; EngineReady] in
  log s = log s0 ++ [Uncaught "TypeError"]
  /\ greCaptchaInstancePromise s = Pending
  /\ waiting s = waiting s0
  /\ forall action, executeRecaptcha s action = Pending.
Proof.
  intros Hkey Hue Hpre Hg He s0 s.
  apply truthy_string_true in Hkey.
  destruct (mount_loading p Hkey) as (Hp & Hs & Hq).
  destruct (passive_run_frame pre (mount p) Hpre) as (Hp1 & Hs1 & Hq1).
  fold s0 in Hp1, Hs1, Hq1, Hg. rewrite Hp in Hp1. rewrite Hs in Hs1.
  rewrite Hq in Hq1.
  assert (step s0 (ScriptLoad 0) = emit (Uncaught "TypeError") s0) as Hload.
  { cbn. rewrite Hs1. cbn. unfold onLoad. rewrite Hg. cbn. rewrite Hue. cbn.
    by rewrite He. }
  subst s. rewrite run_cons, Hload. cbn. rewrite Hq1. cbn.
  repeat split; try done.
  intros action. unfold executeRecaptcha. cbn. by rewrite Hp1.
Qed.

Lemma missing_enterprise_namespace_hangs_witness :
  let p := {| reCaptchaKey := "abc"; language := None; useRecaptchaNet := None;
              useEnterprise := Some true; scriptProps := None;
              container := None; children := 0 |} in
  executeRecaptcha
    (run (run (mount p) [DefineEngine (Some Scenario.engine); Call None])
       [ScriptLoad 0; EngineReady]) (Some "login")
  = Pending.
Proof.
  refine (proj2 (proj2 (proj2 (missing_enterprise_namespace_hangs
    {| reCaptchaKey := "abc"; language := None; useRecaptchaNet := None;
       useEnterprise := Some true; scriptProps := None;
       container := None; children := 0 |}
    Scenario.engine [DefineEngine (Some Scenario.engine); Call None]
    _ _ _ _ _))) (Some "login")).
  - discriminate.
  - reflexivity.
  - repeat constructor.
  - reflexivity.
  - reflexivity.
Defined.

(** ** What the global callback renders *)

Lemma rerender_same_deps p p' s0 :
  Js.truthy_string (reCaptchaKey p) = true ->
  deps_of p' = deps_of p ->
  rerender p' (effect p s0) = effect p s0.
Proof.
  intros Hkey Heq.
  destruct (effect_with_key p s0 Hkey) as (_ & _ & _ & _ & Hd & _).
  unfold rerender. destruct (negb _); [done|].
  by rewrite Hd, Heq, (proj2 (deps_eqb_eq _ _) eq_refl).
Qed.

Lemma set_keys o k v :
  (Js.set o k v).*1 = if bool_decide (k ∈ o.*1) then o.*1 else o.*1 ++ [k].
Proof.
  induction o as [|[k0 v0] o IH]; cbn; [done|].
  destruct (String.eqb k0 k) eqn:E; cbn.
  - apply String.eqb_eq in E as ->.
    rewrite bool_decide_eq_true_2; [done|]. by left.
  - rewrite IH. apply String.eqb_neq in E.
    destruct (bool_decide (k ∈ o.*1)) eqn:D.
    + apply bool_decide_eq_true_1 in D.
      rewrite bool_decide_eq_true_2; [done|]. by right.
    + apply bool_decide_eq_false_1 in D.
      rewrite bool_decide_eq_false_2; [done|].
      intros H. apply elem_of_cons in H as [->|H]; done.
Qed.

Lemma set_keys_NoDup o k v : NoDup o.*1 -> NoDup (Js.set o k v).*1.
Proof.
  intros H. rewrite set_keys. destruct (bool_decide (k ∈ o.*1)) eqn:D; [done|].
  apply bool_decide_eq_false_1 in D.
  apply NoDup_app. split; [done|]. split; [|apply NoDup_singleton].
  intros x Hx Hx'. apply list_elem_of_singleton in Hx'. by subst.
Qed.

(** X10. A container callback that is replaced after the effect ran never
    reaches the engine: the re-render is no restart, the global slot keeps
    the closure of the earlier render, and the widget is rendered with the
    earlier function. *)
Theorem replaced_callback_is_not_rendered p s0 o k f f' g grecaptcha :
  reCaptchaKey p <> EmptyString ->
  NoDup o.*1 ->
  window_grecaptcha s0 = Some g ->
  select_namespace (flag (useEnterprise p)) g = Some grecaptcha ->
  let p1 := with_parameters (Js.set o k (Js.VFun f)) p in
  let p2 := with_parameters (Js.set o k (Js.VFun f')) p in
  let s := step (rerender p2 (effect p1 s0))
             (InvokeGlobal (onLoadCallbackName_of p2)) in
  log s = log s0 ++ [Inject (inject_args_of p1);
                     Render (container_element (container p))
                       (render_params (reCaptchaKey p) (container p1))]
  /\ Js.get (render_params (reCaptchaKey p) (container p1)) k = Some (Js.VFun f).
Proof.
  intros Hkey Hnd Hg Hns p1 p2 s. apply truthy_string_true in Hkey.
  assert (deps_of p2 = deps_of p1) as Hd.
  { unfold deps_of, p1, p2. cbn. unfold Js.stringify_obj.
    by rewrite (members_set_function o k f' f). }
  subst s. rewrite (rerender_same_deps p1 p2 s0 Hkey Hd).
  destruct (invoke_registered_callback p1 s0 g grecaptcha Hkey Hg Hns) as [Hl _].
  destruct (effect_with_key p1 s0 Hkey) as (_ & _ & Hl1 & _).
  split.
  - change (onLoadCallbackName_of p2) with (onLoadCallbackName_of p1).
    cbn zeta in Hl. rewrite Hl, Hl1, <- app_assoc. done.
  - unfold render_params. rewrite get_spread.
    + cbn. by rewrite get_set, String.eqb_refl.
    + cbn. by apply set_keys_NoDup.
Qed.

Lemma replaced_callback_is_not_rendered_witness :
  let s0 := with_window_grecaptcha (Some Scenario.engine) (fresh Scenario.B) in
  log (step (rerender (Scenario.B_callback 2) (effect (Scenario.B_callback 1) s0))
         (InvokeGlobal "onRecaptchaLoadCallback"))
  = [Inject (inject_args_of (Scenario.B_callback 1));
     Render (Some (Selector "#box"))
       [("badge", Js.VStr "inline"); ("size", Js.VStr "invisible");
        ("sitekey", Js.VStr "abc"); ("callback", Js.VFun 1)]].
Proof.
  refine (proj1 (replaced_callback_is_not_rendered Scenario.B
            (with_window_grecaptcha (Some Scenario.engine) (fresh Scenario.B))
            [] "callback" 1 2 Scenario.engine Scenario.grecaptcha _ _ _ _)).
  - discriminate.
  - apply NoDup_nil_2.
  - reflexivity.
  - reflexivity.
Defined.

Lemma invoke_step s name cb g grecaptcha :
  window_callbacks s !! name = Some cb ->
  window_grecaptcha s = Some g ->
  select_namespace (cb_useEnterprise cb) g = Some grecaptcha ->
  let el := container_element (cb_container cb) in
  let params := render_params (cb_reCaptchaKey cb) (cb_container cb) in
  let s' := step s (InvokeGlobal name) in
  log s' = log s ++ [Render el params]
  /\ clientId s' = ns_render grecaptcha (length (renders s)) el params
  /\ window_callbacks s' = window_callbacks s
  /\ window_grecaptcha s' = window_grecaptcha s.
Proof.
  intros Hw Hg Hns. cbn. rewrite Hw. unfold onLoadCallback. rewrite Hg, Hns. done.
Qed.

(** X11. The global callback has no memory of having run: each invocation
    calls [render] again with the same element and parameters, and the
    identifier is the handle returned by the latest of these calls. *)
Theorem every_invocation_renders_again p s g grecaptcha n :
  reCaptchaKey p <> EmptyString ->
  window_grecaptcha s = Some g ->
  select_namespace (flag (useEnterprise p)) g = Some grecaptcha ->
  let el := container_element (container p) in
  let params := render_params (reCaptchaKey p) (container p) in
  let s1 := effect p s in
  let s2 := run s1 (replicate (S n) (InvokeGlobal (onLoadCallbackName_of p))) in
  log s2 = log s1 ++ replicate (S n) (Render el params)
  /\ clientId s2 = ns_render grecaptcha (length (renders s1) + n) el params.
Proof.
  intros Hkey Hg Hns el params s1 s2. apply truthy_string_true in Hkey.
  destruct (effect_with_key p s Hkey) as (Hw & _ & _ & _ & _ & _ & Hg' & _).
  fold s1 in Hw, Hg'.
  assert (window_callbacks s1 !! onLoadCallbackName_of p = Some (global_callback_of p))
    as Hslot by (rewrite Hw; apply lookup_insert_eq).
  rewrite Hg in Hg'. clear Hw.
  subst s2. revert Hslot Hg'. generalize s1. clear s1.
  induction n as [|n IH]; intros s1 Hslot Hg'.
  - cbn [replicate run fold_left].
    destruct (invoke_step s1 _ _ g grecaptcha Hslot Hg' Hns) as (Hl & Hc & _).
    rewrite Nat.add_0_r. done.
  - change (replicate (S (S n)) ?x) with (x :: replicate (S n) x).
    rewrite run_cons.
    destruct (invoke_step s1 _ _ g grecaptcha Hslot Hg' Hns) as (Hl & Hc & Hw & Hg'').
    cbn zeta in Hl, Hc, Hw, Hg''.
    set (s' := step s1 (InvokeGlobal (onLoadCallbackName_of p))) in *.
    destruct (IH s') as [IHl IHc].
    + by rewrite Hw.
    + by rewrite Hg''.
    + rewrite IHl, IHc, Hl, <- app_assoc. split; [done|].
      unfold renders. rewrite Hl, List.filter_app, length_app. cbn.
      f_equal. lia.
Qed.

Lemma every_invocation_renders_again_witness :
  clientId
    (run (effect Scenario.B
            (with_window_grecaptcha (Some Scenario.engine) (fresh Scenario.B)))
       (replicate 3 (InvokeGlobal "onRecaptchaLoadCallback")))
  = IdNum 2.
Proof.
  refine (proj2 (every_invocation_renders_again Scenario.B
            (with_window_grecaptcha (Some Scenario.engine) (fresh Scenario.B))
            Scenario.engine Scenario.grecaptcha 2 _ _ _)).
  - discriminate.
  - reflexivity.
  - reflexivity.
Defined.

(** ** Renders that change little or nothing *)

(** X12. Readiness outlives the key: when a mount whose engine is ready is
    reconfigured to an empty key, the missing-key warning is logged as the
    last thing, but [executeRecaptcha] goes on returning what the engine of
    the earlier configuration returns for the earlier identifier. *)
Theorem ready_engine_survives_empty_key p' s grecaptcha execute :
  mounted s = true ->
  greCaptchaInstancePromise s = Fulfilled (Some grecaptcha) ->
  ns_execute grecaptcha = Some execute ->
  reCaptchaKey p' = EmptyString ->
  deps_of p' <> effect_deps s ->
  let s' := rerender p' s in
  log s' = log (run_cleanup s) ++ [Warn key_missing_warning]
  /\ greCaptchaInstancePromise s' = Fulfilled (Some grecaptcha)
  /\ forall action, executeRecaptcha s' action = execute (clientId s) action.
Proof.
  intros Hm Hp Hex Hkey Hne s'. apply truthy_string_false in Hkey.
  assert (s' = effect p' (run_cleanup s)) as ->.
  { unfold s', rerender. rewrite Hm. cbn.
    rewrite deps_eqb_neq by congruence. done. }
  destruct (run_cleanup_calls s) as (Hp1 & _).
  destruct (run_cleanup_frame s) as (_ & _ & Hi1).
  destruct (effect_without_key p' (run_cleanup s) Hkey)
    as (_ & _ & Hl & _ & _ & Hp2 & _).
  rewrite Hp1, Hp in Hp2.
  assert (clientId (effect p' (run_cleanup s)) = clientId s) as Hi2.
  { unfold effect. rewrite Hkey. cbn. rewrite <- Hi1.
    etrans; [apply resolve_frame|done]. }
  split; [exact Hl|]. split; [exact Hp2|].
  intros action. unfold executeRecaptcha, executeRecaptcha_after_await.
  by rewrite Hp2, Hex, Hi2.
Qed.

Lemma ready_engine_survives_empty_key_witness :
  executeRecaptcha
    (rerender Scenario.C
       (run (mount Scenario.A)
          [DefineEngine (Some Scenario.engine); ScriptLoad 0; EngineReady]))
    (Some "login")
  = Scenario.execute (IdStr "abc") (Some "login").
Proof.
  refine (proj2 (proj2 (ready_engine_survives_empty_key Scenario.C
    (run (mount Scenario.A)
       [DefineEngine (Some Scenario.engine); ScriptLoad 0; EngineReady])
    Scenario.grecaptcha Scenario.execute _ _ _ _ _)) (Some "login")).
  - reflexivity.
  - reflexivity.
  - reflexivity.
  - reflexivity.
  - intros H. apply (f_equal dep_reCaptchaKey) in H. discriminate H.
Defined.

Lemma effect_deps_mounted p s :
  effect_deps (effect p s) = deps_of p /\ mounted (effect p s) = mounted s.
Proof.
  destruct (Js.truthy_string (reCaptchaKey p)) eqn:Hkey.
  - destruct (effect_with_key p s Hkey) as (_ & _ & _ & _ & -> & _ & _ & _ & ->).
    done.
  - destruct (effect_without_key p s Hkey) as (_ & _ & _ & _ & -> & _ & ->).
    done.
Qed.

(** X13. Rendering again with the props of the last render does nothing,
    in any state of the mount: whatever the first render with these props
    did (nothing, or a teardown and a new run of the effect), a second one
    changes no ref, injects nothing and logs nothing. *)
Theorem rerender_idempotent p s :
  rerender p (rerender p s) = rerender p s.
Proof.
  unfold rerender at 2.
  destruct (negb (mounted s)) eqn:Em.
  - unfold rerender. by rewrite Em.
  - destruct (deps_eqb (effect_deps s) (deps_of p)) eqn:Ed.
    + unfold rerender. by rewrite Em, Ed.
    + destruct (effect_deps_mounted p (run_cleanup s)) as [Hd Hm].
      assert (mounted (run_cleanup s) = mounted s) as Hm'
        by (unfold run_cleanup; destruct (effect_cleanup s) as [[i el]|]; done).
      unfold rerender. rewrite Hm, Hm', Em, Hd, Ed.
      by rewrite (proj2 (deps_eqb_eq _ _) eq_refl).
Qed.

(** ** The global scope *)

Lemma fire_ready_window q : forall s,
  window_callbacks (fire_ready q s) = window_callbacks s.
Proof. intros s. apply fire_ready_frame. Qed.

Lemma step_leaves_name name s e :
  leaves_name name e ->
  window_callbacks (step s e) !! name = window_callbacks s !! name.
Proof.
  intros He. destruct e; cbn in *.
  - unfold rerender. destruct (negb (mounted s)); [done|].
    destruct (deps_eqb _ _); [done|].
    assert (window_callbacks (run_cleanup s) = window_callbacks s) as Hc
      by (unfold run_cleanup; destruct (effect_cleanup s) as [[i el]|]; done).
    destruct (Js.truthy_string (reCaptchaKey p)) eqn:Hkey.
    + destruct (effect_with_key p (run_cleanup s) Hkey) as (-> & _).
      by rewrite lookup_insert_ne, Hc.
    + destruct (effect_without_key p (run_cleanup s) Hkey) as (-> & _).
      by rewrite Hc.
  - unfold unmount. destruct (negb (mounted s)); [done|]. cbn.
    unfold run_cleanup. destruct (effect_cleanup s) as [[i el]|]; done.
  - done.
  - destruct (window_callbacks s !! name0); [|done].
    unfold onLoadCallback. split_cases; done.
  - destruct (scripts s !! i); [|done].
    unfold onLoad, logWarningMessage. split_cases; try done.
    by rewrite (proj1 (proj2 (proj2 (proj2 (resolve_frame _ _))))).
  - destruct (scripts s !! i); [|done].
    unfold onError, logWarningMessage.
    by rewrite (proj1 (proj2 (proj2 (proj2 (resolve_frame _ _))))).
  - by rewrite fire_ready_window.
  - by rewrite (proj1 (proj2 (proj2 (proj2 (proj2 (call_frame _ _)))))).
Qed.

(** X14. A mount writes no global slot but those named by its own
    configurations: a slot whose name none of its renders uses as callback
    name (the slot of another mount, say) holds after any run what it held
    before; teardown, load, error and ready handlers and the global callback
    itself assign no slot at all. *)
Theorem foreign_slot_is_untouched name s es :
  Forall (leaves_name name) es ->
  window_callbacks (run s es) !! name = window_callbacks s !! name.
Proof.
  revert s. induction es as [|e es IH]; intros s H; [done|].
  apply Forall_cons in H as [He Hes].
  rewrite run_cons, IH by done. by apply step_leaves_name.
Qed.

Lemma foreign_slot_is_untouched_witness :
  window_callbacks
    (run (with_window_callbacks
            {["otherCallback" := global_callback_of Scenario.B]}
            (mount Scenario.A))
       [Rerender Scenario.B; InvokeGlobal "otherCallback"; Unmount])
    !! "otherCallback"
  = Some (global_callback_of Scenario.B).
Proof.
  refine (foreign_slot_is_untouched "otherCallback"
            (with_window_callbacks
               {["otherCallback" := global_callback_of Scenario.B]}
               (mount Scenario.A))
            [Rerender Scenario.B; InvokeGlobal "otherCallback"; Unmount] _).
  repeat constructor; discriminate.
Defined.

(** ** The serialization tells serializable values apart *)

Lemma sapp_nil_l b : EmptyString +:+ b = b.
Proof. reflexivity. Qed.

Lemma sapp_cons x a b : String x a +:+ b = String x (a +:+ b).
Proof. reflexivity. Qed.

Lemma sapp_assoc a b c : (a +:+ b) +:+ c = a +:+ (b +:+ c).
Proof.
  induction a as [|x a IH]; [done|]. by rewrite !sapp_cons, IH.
Qed.

Lemma sapp_nil_r a : a +:+ EmptyString = a.
Proof. induction a as [|x a IH]; [done|]. by rewrite sapp_cons, IH. Qed.

Lemma sapp_length a b :
  String.length (a +:+ b) = String.length a + String.length b.
Proof.
  induction a as [|x a IH]; [done|]. rewrite sapp_cons. cbn. by rewrite IH.
Qed.

Lemma sapp_inv_tail r : forall a b, a +:+ r = b +:+ r -> a = b.
Proof.
  induction a as [|x a IH]; intros [|y b] H.
  - done.
  - apply (f_equal String.length) in H.
    rewrite sapp_cons, sapp_nil_l in H. cbn in H.
    rewrite sapp_length in H. lia.
  - apply (f_equal String.length) in H.
    rewrite sapp_cons, sapp_nil_l in H. cbn in H.
    rewrite sapp_length in H. lia.
  - rewrite !sapp_cons in H. injection H as -> H. f_equal. by apply IH.
Qed.

Lemma unescape_escape_char c x :
  unescape (Js.escape_char c +:+ x) = String c (unescape x).
Proof.
  destruct c as [[] [] [] [] [] [] [] []]; reflexivity.
Qed.

(** Escaping loses nothing. *)
Lemma unescape_escape s : unescape (Js.escape s) = s.
Proof.
  induction s as [|c s IH]; [done|].
  change (Js.escape (String c s)) with (Js.escape_char c +:+ Js.escape s).
  by rewrite unescape_escape_char, IH.
Qed.

Lemma quote_inj s s' : Js.quote s = Js.quote s' -> s = s'.
Proof.
  unfold Js.quote, Js.dquote. rewrite !sapp_cons, !sapp_nil_l. intros [= H].
  apply sapp_inv_tail in H.
  by rewrite <- (unescape_escape s), <- (unescape_escape s'), H.
Qed.

Lemma to_int_not_nil n :
  Z.to_int n <> Decimal.Pos Decimal.Nil /\ Z.to_int n <> Decimal.Neg Decimal.Nil.
Proof.
  split; intros H; pose proof (DecimalZ.of_to n) as E; rewrite H in E;
    cbn in E; subst n; discriminate H.
Qed.

Lemma int_string_inj n m :
  NilZero.string_of_int (Z.to_int n) = NilZero.string_of_int (Z.to_int m) ->
  n = m.
Proof.
  intros H. apply (f_equal NilZero.int_of_string) in H.
  destruct (to_int_not_nil n) as [Hn1 Hn2], (to_int_not_nil m) as [Hm1 Hm2].
  rewrite !NilZero.isi in H by done. injection H as H.
  by rewrite <- (DecimalZ.of_to n), <- (DecimalZ.of_to m), H.
Qed.

Lemma int_string_not_quoted n s :
  NilZero.string_of_int (Z.to_int n) <> Js.quote s.
Proof.
  intros H. apply (f_equal NilZero.int_of_string) in H.
  destruct (to_int_not_nil n) as [Hn1 Hn2].
  rewrite NilZero.isi in H by done.
  unfold Js.quote, Js.dquote in H. rewrite sapp_cons, sapp_nil_l in H.
  generalize dependent (Js.escape s +:+ String (Ascii.ascii_of_nat 34) EmptyString).
  intros r H.
  change (Ascii.ascii_of_nat 34)
    with (Ascii.Ascii false true false false false true false false) in H.
  cbn in H. destruct (NilEmpty.uint_of_string r); discriminate H.
Qed.

Lemma int_string_not_bool n b j :
  Js.stringify_val (Js.VBool b) = Some j ->
  NilZero.string_of_int (Z.to_int n) <> j.
Proof.
  intros Hj H. apply (f_equal NilZero.int_of_string) in H.
  destruct (to_int_not_nil n) as [Hn1 Hn2].
  rewrite NilZero.isi in H by done.
  destruct b; injection Hj as <-; discriminate H.
Qed.

(** Two values with the same serialization are the same value. *)
Lemma bool_string_not_quoted b s j :
  Js.stringify_val (Js.VBool b) = Some j -> j <> Js.quote s.
Proof.
  unfold Js.quote, Js.dquote. rewrite sapp_cons, sapp_nil_l.
  destruct b; intros [= <-]; discriminate.
Qed.

Lemma stringify_val_inj v v' j :
  Js.stringify_val v = Some j -> Js.stringify_val v' = Some j -> v = v'.
Proof.
  destruct v as [|b|n|s|f], v' as [|b'|n'|s'|f']; try discriminate;
    intros H1 H2.
  - destruct b, b'; cbn in H1, H2; congruence.
  - exfalso. apply (int_string_not_bool n' b j H1). by injection H2.
  - exfalso. apply (bool_string_not_quoted b s' j H1). by injection H2.
  - exfalso. apply (int_string_not_bool n b' j H2). by injection H1.
  - f_equal. apply int_string_inj. cbn in H1, H2. congruence.
  - exfalso. apply (int_string_not_quoted n s'). cbn in H1, H2. congruence.
  - exfalso. apply (bool_string_not_quoted b' s j H2). by injection H1.
  - exfalso. apply (int_string_not_quoted n' s). cbn in H1, H2. congruence.
  - f_equal. apply quote_inj. cbn in H1, H2. congruence.
Qed.

Lemma join_cons sep x ms :
  ms <> [] -> Js.join sep (x :: ms) = x +:+ sep +:+ Js.join sep ms.
Proof. destruct ms; done. Qed.

Lemma members_set_nonempty o k v j :
  Js.stringify_val v = Some j -> Js.members (Js.set o k v) <> [].
Proof.
  intros Hj. induction o as [|[k0 v0] o IH]; cbn.
  - by rewrite Hj.
  - destruct (String.eqb k0 k); cbn.
    + by rewrite Hj.
    + destruct (Js.stringify_val v0); done.
Qed.

(** The serialization of an object with a property set to a serializable
    value is the serialization of the value between two strings that do not
    depend on it. *)
Lemma stringify_set_shape o k :
  exists P S, forall v j,
    Js.stringify_val v = Some j ->
    Js.stringify_obj (Js.set o k v) = P +:+ j +:+ S.
Proof.
  assert (exists P S, forall v j,
             Js.stringify_val v = Some j ->
             Js.join "," (Js.members (Js.set o k v)) = P +:+ j +:+ S)
    as (P & S & H).
  { induction o as [|[k0 v0] o (P & S & IH)].
    - exists (Js.quote k +:+ ":"), EmptyString. intros v j Hj. cbn.
      by rewrite Hj, sapp_nil_r, sapp_assoc.
    - cbn [Js.set]. destruct (String.eqb k0 k).
      + destruct (Js.members o) as [|m ms] eqn:Em.
        * exists (Js.quote k0 +:+ ":"), EmptyString. intros v j Hj.
          cbn [Js.members]. rewrite Hj, Em. cbn [Js.join].
          by rewrite sapp_nil_r, sapp_assoc.
        * exists (Js.quote k0 +:+ ":"), ("," +:+ Js.join "," (m :: ms)).
          intros v j Hj. cbn [Js.members]. rewrite Hj, Em.
          rewrite join_cons by done. by rewrite !sapp_assoc.
      + destruct (Js.stringify_val v0) as [j0|] eqn:E0.
        * exists (Js.quote k0 +:+ ":" +:+ j0 +:+ "," +:+ P), S.
          intros v j Hj. cbn [Js.members]. rewrite E0.
          rewrite join_cons by (by apply (members_set_nonempty o k v j)).
          rewrite (IH v j Hj). by rewrite !sapp_assoc.
        * exists P, S. intros v j Hj. cbn [Js.members]. rewrite E0.
          by apply IH. }
  exists ("{" +:+ P), (S +:+ "}"). intros v j Hj.
  unfold Js.stringify_obj. rewrite (H v j Hj). by rewrite !sapp_assoc.
Qed.

(** Setting a property to two different serializable values gives two
    different serializations. *)
Lemma stringify_set_inj o k v v' j j' :
  Js.stringify_val v = Some j -> Js.stringify_val v' = Some j' ->
  Js.stringify_obj (Js.set o k v) = Js.stringify_obj (Js.set o k v') ->
  v = v'.
Proof.
  intros Hj Hj' H.
  destruct (stringify_set_shape o k) as (P & S & Hs).
  rewrite (Hs v j Hj), (Hs v' j' Hj') in H.
  apply (inj (String.append P)) in H. apply sapp_inv_tail in H. subst j'.
  by apply (stringify_val_inj v v' j).
Qed.

Lemma plain_value_serializable v :
  plain_value v -> is_Some (Js.stringify_val v).
Proof. destruct v as [|[]| | |]; cbn; try done; by eexists. Qed.

Lemma restart_log p p' s0 :
  Js.truthy_string (reCaptchaKey p) = true ->
  Js.truthy_string (reCaptchaKey p') = true ->
  mounted s0 = true ->
  deps_of p' <> deps_of p ->
  log (rerender p' (effect p s0))
  = log (effect p s0)
    ++ [Clean (scriptId_of p) (container_element (container p));
        Inject (inject_args_of p')].
Proof.
  intros Hkey Hkey' Hm Hne.
  rewrite (rerender_restart p p' s0 Hkey Hm Hne).
  destruct (run_cleanup_after_effect p s0 Hkey) as (Hl & _).
  destruct (effect_with_key p' (run_cleanup (effect p s0)) Hkey') as (_ & _ & -> & _).
  cbn zeta in Hl. by rewrite Hl, <- app_assoc.
Qed.

(** X15. A script option or a render parameter whose value is replaced by
    a different value, both of them strings, booleans or safe integers (at
    most 2^53 - 1 in absolute value, negative zero apart), always restarts
    the effect: the serializations differ, and the re-render makes exactly
    one teardown followed by exactly one injection. *)
Theorem changed_value_restarts p s0 o k v v' :
  reCaptchaKey p <> EmptyString ->
  mounted s0 = true ->
  plain_value v ->
  plain_value v' ->
  v <> v' ->
  (let p1 := with_scriptProps (Js.set o k v) p in
   let p2 := with_scriptProps (Js.set o k v') p in
   Js.stringify (scriptProps p2) <> Js.stringify (scriptProps p1)
   /\ log (rerender p2 (effect p1 s0))
      = log (effect p1 s0)
        ++ [Clean (scriptId_of p1) (container_element (container p));
            Inject (inject_args_of p2)])
  /\ (let p1 := with_parameters (Js.set o k v) p in
      let p2 := with_parameters (Js.set o k v') p in
      Js.stringify (container_parameters (container p2))
      <> Js.stringify (container_parameters (container p1))
      /\ log (rerender p2 (effect p1 s0))
         = log (effect p1 s0)
           ++ [Clean (scriptId_of p) (container_element (container p));
               Inject (inject_args_of p2)]).
Proof.
  intros Hkey Hm Hv Hv' Hne. apply truthy_string_true in Hkey.
  destruct (plain_value_serializable v Hv) as [j Hj].
  destruct (plain_value_serializable v' Hv') as [j' Hj'].
  assert (Js.stringify_obj (Js.set o k v') <> Js.stringify_obj (Js.set o k v))
    as Hs.
  { intros H. apply Hne. symmetry.
    by apply (stringify_set_inj o k v' v j' j). }
  split.
  - intros p1 p2. split.
    + cbn. congruence.
    + apply (restart_log p1 p2 s0); try done.
      intros H. apply (f_equal dep_scriptPropsJson) in H. cbn in H. congruence.
  - intros p1 p2. split.
    + cbn. congruence.
    + apply (restart_log p1 p2 s0); try done.
      intros H. apply (f_equal dep_parametersJson) in H. cbn in H. congruence.
Qed.

Lemma changed_value_restarts_witness :
  let p1 := with_parameters [("tabindex", Js.VNum 3)] Scenario.B in
  let p2 := with_parameters [("tabindex", Js.VNum (-3))] Scenario.B in
  log (rerender p2 (effect p1 (fresh p1)))
  = log (effect p1 (fresh p1))
    ++ [Clean "google-recaptcha-v3" (Some (Selector "#box"));
        Inject (inject_args_of p2)].
Proof.
  refine (proj2 (proj2 (changed_value_restarts Scenario.B
            (fresh (with_parameters [("tabindex", Js.VNum 3)] Scenario.B))
            [("tabindex", Js.VNum 3)] "tabindex" (Js.VNum 3) (Js.VNum (-3))
            _ _ _ _ _))).
  - discriminate.
  - reflexivity.
  - vm_compute. split; intros H; discriminate H.
  - vm_compute. split; intros H; discriminate H.
  - discriminate.
Defined.
